(** * Wheel-of-Fortune solver ([Andy/wof_solver3.py]): model and properties

    The development embeds the solver of [Andy/wof_solver3.py] function by
    function.  Python strings are lists of characters; the model covers
    ASCII text: a character is an [ascii], and codes above 127 are treated
    as caseless symbols that are not white space.  The part of Python's
    [re] module that the solver reaches is modelled in [Module Re]; every
    construct of [re] outside that part makes compilation answer
    [Unsupported], so that nothing is claimed about it. *)

From Stdlib Require Import Ascii String.
From Stdlib Require Import List Bool Arith NArith ZArith Lia.
From Stdlib Require Import Permutation Sorted.
Import ListNotations.

Local Open Scope list_scope.

(** ** Strings and outcomes *)

Definition str := list ascii.

Definition lit (s : string) : str := list_ascii_of_string s.
Arguments lit s%_string.

(** Outcome of code that may raise [re.error].  [Unsupported] marks regular
    expressions that use syntax outside the modelled fragment. *)
Inductive result (A : Type) : Type :=
| Ok (a : A)
| ReError
| Unsupported.
Arguments Ok {A} a.
Arguments ReError {A}.
Arguments Unsupported {A}.

Definition bind {A B : Type} (r : result A) (k : A -> result B) : result B :=
  match r with
  | Ok a => k a
  | ReError => ReError
  | Unsupported => Unsupported
  end.

Notation "x <- e ;; k" := (bind e (fun x => k))
  (at level 61, e at next level, right associativity).

Definition is_nil {A : Type} (l : list A) : bool :=
  match l with [] => true | _ :: _ => false end.

(** ** Python built-ins used by the solver *)
Module Py.

Definition code (c : ascii) : N := N_of_ascii c.

Definition in_range (lo hi c : ascii) : bool :=
  ((code lo <=? code c) && (code c <=? code hi))%N.

(** [ch in string.ascii_uppercase] for a one-character string [ch]. *)
Definition is_upper (c : ascii) : bool := in_range "A" "Z" c.

Definition is_lower (c : ascii) : bool := in_range "a" "z" c.

(** White space of [str.strip] and [str.split]: TAB, LF, VT, FF, CR,
    FS, GS, RS, US and the space. *)
Definition is_space (c : ascii) : bool :=
  ((9 <=? code c) && (code c <=? 13) || (28 <=? code c) && (code c <=? 32))%N.

Definition upper_char (c : ascii) : ascii :=
  if is_lower c then ascii_of_N (code c - 32) else c.

(** [s.upper()] *)
Definition upper (s : str) : str := map upper_char s.

Fixpoint lstrip (s : str) : str :=
  match s with
  | [] => []
  | c :: r => if is_space c then lstrip r else s
  end.

(** [s.strip()] *)
Definition strip (s : str) : str := rev (lstrip (rev (lstrip s))).

(** [s.split()]: the maximal runs of characters that are not white
    space, in order. *)
Fixpoint split (s : str) : list str :=
  match s with
  | [] => []
  | c :: r =>
      if is_space c then split r
      else match r with
           | [] => [[c]]
           | d :: _ =>
               if is_space d then [c] :: split r
               else match split r with
                    | w :: ws => (c :: w) :: ws
                    | [] => [[c]]
                    end
           end
  end.

(** [sep.join(parts)] *)
Fixpoint join (sep : str) (parts : list str) : str :=
  match parts with
  | [] => []
  | [p] => p
  | p :: rest => p ++ sep ++ join sep rest
  end.

Fixpoint str_eqb (a b : str) : bool :=
  match a, b with
  | [], [] => true
  | x :: a', y :: b' => Ascii.eqb x y && str_eqb a' b'
  | _, _ => false
  end.

(** [a <= b] on strings: lexicographic on the character codes. *)
Fixpoint str_leb (a b : str) : bool :=
  match a, b with
  | [], _ => true
  | _ :: _, [] => false
  | x :: a', y :: b' =>
      if (code x <? code y)%N then true
      else if (code y <? code x)%N then false
      else str_leb a' b'
  end.

(** [x in s] for a set (or list) [s] of strings.  Sets of strings are
    lists here; the solver only tests membership in them, except where
    a comment says otherwise. *)
Definition mem (x : str) (s : list str) : bool := existsb (str_eqb x) s.

(** [set(l)] followed by an iteration: the distinct elements of [l].
    Python leaves the iteration order of a set open; the solver sorts
    the result before it uses it. *)
Fixpoint set_of_list (l : list str) : list str :=
  match l with
  | [] => []
  | x :: r => if mem x r then set_of_list r else x :: set_of_list r
  end.

(** Stable insertion sort: [leb x y] says that [x] may stay in front of
    [y].  With [leb x y := key x <= key y] it is [sorted(l, key=key)],
    with [leb x y := key y <= key x] it is
    [sorted(l, key=key, reverse=True)]; both keep the original order of
    elements with equal keys, as Python's sort does. *)
Section Sort.
Context {A : Type} (leb : A -> A -> bool).

Fixpoint insert (x : A) (l : list A) : list A :=
  match l with
  | [] => [x]
  | y :: r => if leb x y then x :: l else y :: insert x r
  end.

Definition sort (l : list A) : list A := fold_right insert [] l.
End Sort.

(** [sorted(l)] on strings *)
Definition sorted_str (l : list str) : list str := sort str_leb l.

(** [sorted(l, key=key, reverse=True)] with integer keys *)
Definition sorted_desc {A : Type} (key : A -> Z) (l : list A) : list A :=
  sort (fun x y => (key y <=? key x)%Z) l.

(** [itertools.product] applied to the lists: the leftmost list varies
    slowest. *)
Fixpoint product {A : Type} (lists : list (list A)) : list (list A) :=
  match lists with
  | [] => [[]]
  | l :: rest => flat_map (fun x => map (cons x) (product rest)) l
  end.

(** [collections.Counter] keyed by characters: a dictionary in
    insertion order. *)
Definition Counter := list (ascii * Z).

Fixpoint counter_get (c : Counter) (k : ascii) : option Z :=
  match c with
  | [] => None
  | (k', v) :: r => if Ascii.eqb k k' then Some v else counter_get r k
  end.

(** [k in c] *)
Definition counter_has (c : Counter) (k : ascii) : bool :=
  match counter_get c k with Some _ => true | None => false end.

(** [c.get(k, 0)] *)
Definition counter_get0 (c : Counter) (k : ascii) : Z :=
  match counter_get c k with Some v => v | None => 0%Z end.

(** [c[k] += v]: a present key keeps its place, a new key goes last
    (a missing key counts as 0). *)
Fixpoint counter_add (c : Counter) (k : ascii) (v : Z) : Counter :=
  match c with
  | [] => [(k, v)]
  | (k', v') :: r =>
      if Ascii.eqb k k' then (k', (v' + v)%Z) :: r
      else (k', v') :: counter_add r k v
  end.

(** [Counter(s)] for a string [s] *)
Definition counter_of (s : str) : Counter :=
  fold_left (fun c ch => counter_add c ch 1%Z) s [].

(** [c.most_common()]: the items sorted by count, largest first, ties
    in insertion order. *)
Definition most_common (c : Counter) : list (ascii * Z) :=
  sorted_desc snd c.

End Py.

(** ** The fragment of Python's [re] that the solver reaches *)
Module Re.

Inductive set_item : Type :=
| SChar (c : ascii)
| SRange (lo hi : ascii).

Inductive atom : Type :=
| Bol                                   (* ^ *)
| Eol                                   (* $ *)
| AnyChar                               (* . *)
| Lit (c : ascii)
| CharSet (negate : bool) (items : list set_item).

Inductive mode : Type :=
| Top
| InSet (negate : bool) (items : list set_item).

(** Characters that are operators outside a character set and are not
    modelled. *)
Definition unmodelled (c : ascii) : bool :=
  (Ascii.eqb c "*" || Ascii.eqb c "+" || Ascii.eqb c "?" || Ascii.eqb c "{"
   || Ascii.eqb c "|" || Ascii.eqb c "\")%char.

Definition cons_atom (a : atom) (r : result (list atom)) : result (list atom) :=
  rest <- r ;; Ok (a :: rest).

(** The parser of [re.compile], restricted to anchors, the dot, literal
    characters and character sets.  A group that is opened and never
    closed, a closing parenthesis without an opening one, a character
    set without its closing bracket and a range whose bounds are in the
    wrong order raise [re.error]. *)
Fixpoint parse (m : mode) (s : str) {struct s} : result (list atom) :=
  match s with
  | [] =>
      match m with
      | Top => Ok []
      | InSet _ _ => ReError
      end
  | c :: rest =>
      match m with
      | Top =>
          if Ascii.eqb c "[" then
            match rest with
            | d :: rest' =>
                if Ascii.eqb d "^" then parse (InSet true []) rest'
                else parse (InSet false []) rest
            | [] => ReError
            end
          else if Ascii.eqb c "^" then cons_atom Bol (parse Top rest)
          else if Ascii.eqb c "$" then cons_atom Eol (parse Top rest)
          else if Ascii.eqb c "." then cons_atom AnyChar (parse Top rest)
          else if Ascii.eqb c "(" then
            if existsb (Ascii.eqb ")") rest then Unsupported else ReError
          else if Ascii.eqb c ")" then ReError
          else if unmodelled c then Unsupported
          else cons_atom (Lit c) (parse Top rest)
      | InSet negate items =>
          if Ascii.eqb c "]" && negb (is_nil items) then
            cons_atom (CharSet negate items) (parse Top rest)
          else if Ascii.eqb c "\" then Unsupported
          else
            match rest with
            | d :: rest' =>
                if Ascii.eqb d "-" then
                  match rest' with
                  | [] => ReError
                  | that :: rest'' =>
                      if Ascii.eqb that "]" then
                        cons_atom (CharSet negate (items ++ [SChar c; SChar "-"]))
                                  (parse Top rest'')
                      else if Ascii.eqb that "\" then Unsupported
                      else if (Py.code that <? Py.code c)%N then ReError
                      else parse (InSet negate (items ++ [SRange c that])) rest''
                  end
                else parse (InSet negate (items ++ [SChar c])) rest
            | [] => ReError
            end
      end
  end.

(** [re.compile(s)] *)
Definition compile (s : str) : result (list atom) := parse Top s.

Definition item_matches (c : ascii) (it : set_item) : bool :=
  match it with
  | SChar x => Ascii.eqb c x
  | SRange lo hi => Py.in_range lo hi c
  end.

Definition newline : ascii := ascii_of_N 10.

Definition accepts (a : atom) (c : ascii) : bool :=
  match a with
  | Lit x => Ascii.eqb c x
  | AnyChar => negb (Ascii.eqb c newline)
  | CharSet negate items => xorb negate (existsb (item_matches c) items)
  | Bol | Eol => false
  end.

(** Matching from the current position: [at_start] says whether the
    position is the beginning of the string.  [$] holds at the end of
    the string and just before a newline that ends it. *)
Fixpoint run (atoms : list atom) (at_start : bool) (s : str) : bool :=
  match atoms with
  | [] => true
  | Bol :: k => at_start && run k at_start s
  | Eol :: k => (is_nil s || Py.str_eqb s [newline]) && run k at_start s
  | a :: k =>
      match s with
      | [] => false
      | c :: s' => accepts a c && run k false s'
      end
  end.

(** [rx.match(s)] as a truth value *)
Definition rmatch (rx : list atom) (s : str) : bool := run rx true s.

End Re.

(** ** The solver *)

(** A text file: [None] when the path does not exist, otherwise its lines,
    as iterating over the open file yields them. *)
Definition file := option (list str).

Definition load_list (path : file) : list str :=
  match path with
  | None => []
  | Some f =>
      map (fun line => Py.upper (Py.strip line))
          (filter (fun line => negb (is_nil (Py.strip line))) f)
  end.

(** [attempted] is [None], or the strings that iterating over the argument
    yields (the characters of a string, the elements of a list or set). *)
Definition extract_attempted_letters (pattern : str) (attempted : option (list str))
  : list str :=
  let given_attempted :=
    match attempted with
    | Some (x :: l) => map Py.upper (x :: l)
    | _ => []
    end in
  let pattern_attempted :=
    map (fun c => [c]) (filter Py.is_upper (Py.upper pattern)) in
  pattern_attempted ++ given_attempted.

(** [forbidden_letters] is [None] or the strings of the collection in the
    order in which [join] meets them. *)
Definition pattern_to_regex (pattern : str) (forbidden_letters : option (list str))
  : str :=
  let forbidden_letters :=
    match forbidden_letters with None => [] | Some f => f end in
  let forbidden_letters := Py.join [] forbidden_letters in
  let rx :=
    flat_map
      (fun ch =>
         if Ascii.eqb ch "_" then
           if negb (is_nil forbidden_letters)
           then lit "[A-Z^" ++ forbidden_letters ++ lit "]"
           else lit "[A-Z]"
         else if Py.is_upper ch then [ch]
         else [ch])
      pattern in
  lit "^" ++ rx ++ lit "$".

(** The loop over [zip(pattern, p)] of [phrase_matches] and [match_words]:
    [false] as soon as an underscore of the pattern faces a forbidden
    letter. *)
Fixpoint blanks_ok (pattern p : str) (forbidden_letters : list str) : bool :=
  match pattern, p with
  | pat_char :: pattern', ph_char :: p' =>
      if Ascii.eqb pat_char "_" && Py.mem [ph_char] forbidden_letters then false
      else blanks_ok pattern' p' forbidden_letters
  | _, _ => true
  end.

Definition phrase_matches (pattern : str) (phrases forbidden_letters : list str)
  : result (list str) :=
  rx <- Re.compile (pattern_to_regex pattern None) ;;
  Ok (filter (fun p => Re.rmatch rx p && blanks_ok pattern p forbidden_letters)
             phrases).

Definition match_words (words : list str) (pattern_word : str)
  (forbidden_letters : list str) : result (list str) :=
  rx <- Re.compile (pattern_to_regex pattern_word None) ;;
  Ok (filter (fun w => Nat.eqb (length w) (length pattern_word)
                       && Re.rmatch rx w
                       && blanks_ok pattern_word w forbidden_letters)
             words).

(** The loop of [solve_pattern] over the parts: [None] is the early
    [return []]. *)
Fixpoint candidate_lists (parts : list str) (words forbidden_letters : list str)
  : result (option (list (list str))) :=
  match parts with
  | [] => Ok (Some [])
  | part :: rest =>
      matches <- match_words words part forbidden_letters ;;
      if is_nil matches then Ok None
      else
        lists <- candidate_lists rest words forbidden_letters ;;
        Ok (option_map (cons matches) lists)
  end.

Definition solve_pattern (pattern : str) (words forbidden_letters : list str)
  : result (list str) :=
  let parts := Py.split pattern in
  lists <- candidate_lists parts words forbidden_letters ;;
  match lists with
  | None => Ok []
  | Some lists => Ok (map (Py.join (lit " ")) (Py.product lists))
  end.

Definition freq : Py.Counter := Py.counter_of (lit "ETAOINSHRDLU").

(** The score that [rank_solutions] gives to [s]; [phrase_set] is [None]
    when the argument is left out. *)
Definition score (phrase_set : option (list str)) (s : str) : Z :=
  let score := fold_right Z.add 0%Z (map (Py.counter_get0 freq) s) in
  match phrase_set with
  | Some (p :: ps) => if Py.mem s (p :: ps) then (score + 100)%Z else score
  | _ => score
  end.

Definition rank_solutions (solutions : list str) (phrase_set : option (list str))
  : list str :=
  let ranked := map (fun s => (s, score phrase_set s)) solutions in
  let ranked := Py.sorted_desc snd ranked in
  map fst ranked.

(** The loop of [recommend_next_letter] over the characters of one
    solution [s] of weight [w]; [w] stands for [int(w)]. *)
Definition count_solution (attempted phrase_set : list str) (counts : Py.Counter)
  (sw : str * Z) : Py.Counter :=
  let (s, w) := sw in
  fold_left
    (fun counts ch =>
       if Py.is_upper ch && negb (Py.mem [ch] attempted) then
         let counts := Py.counter_add counts ch w in
         if Py.mem s phrase_set then Py.counter_add counts ch (w * 10)%Z
         else counts
       else counts)
    s counts.

(** The loop over the alphabet that gives -1 to the letters that are
    neither attempted nor counted. *)
Definition penalize (attempted : list str) (counts : Py.Counter) : Py.Counter :=
  fold_left
    (fun counts ch =>
       if negb (Py.mem [ch] attempted) && negb (Py.counter_has counts ch)
       then Py.counter_add counts ch (-1)%Z
       else counts)
    (lit "ABCDEFGHIJKLMNOPQRSTUVWXYZ") counts.

(** [weights] is [None] or the list of the weights, each already
    truncated by [int]. *)
Definition recommend_next_letter (solutions : list str) (attempted : list str)
  (weights : option (list Z)) (phrase_set : list str) : list (ascii * Z) :=
  let weights :=
    match weights with
    | None => repeat 1%Z (length solutions)
    | Some ws => ws
    end in
  let counts :=
    fold_left (count_solution attempted phrase_set) (combine solutions weights) [] in
  let counts := penalize attempted counts in
  Py.most_common counts.

Record solver_result : Type := {
  solutions : list str;
  ranked : list str;
  next_letter : list (ascii * Z)
}.

Definition wof_solver (pattern : str) (attempted_letters : option (list str))
  (words_path phrases_path : file) : result solver_result :=
  let pattern := Py.upper pattern in
  let attempted := extract_attempted_letters pattern attempted_letters in
  let words := load_list words_path in
  let phrases := load_list phrases_path in
  let phrase_set := phrases in
  let forbidden :=
    map (fun c => [c]) (filter Py.is_upper pattern) ++ attempted in
  from_phrases <- phrase_matches pattern phrases forbidden ;;
  word_based <- solve_pattern pattern words forbidden ;;
  let all_solutions := Py.sorted_str (Py.set_of_list (from_phrases ++ word_based)) in
  if is_nil all_solutions then
    Ok {| solutions := [];
          ranked := [];
          next_letter := recommend_next_letter [] attempted None phrase_set |}
  else
    let ranked := rank_solutions all_solutions (Some phrase_set) in
    let next_letter := recommend_next_letter ranked attempted None phrase_set in
    Ok {| solutions := all_solutions;
          ranked := ranked;
          next_letter := next_letter |}.

(** ** Vocabulary of the statements *)

(** A cell of a pattern: a fixed upper-case letter or the placeholder. *)
Definition is_cell (c : ascii) : bool := Py.is_upper c || Ascii.eqb c "_".

(** Valid patterns: one or more segments of one or more cells each,
    separated by single spaces. *)
Fixpoint valid_pattern (p : str) : bool :=
  match p with
  | [] => false
  | c :: r =>
      is_cell c
      && match r with
         | [] => true
         | d :: r' => if Ascii.eqb d " " then valid_pattern r' else valid_pattern r
         end
  end.

(** Characters that [re] reads as operators outside a character set. *)
Definition special (c : ascii) : bool :=
  (Ascii.eqb c "[" || Ascii.eqb c "^" || Ascii.eqb c "$" || Ascii.eqb c "."
   || Ascii.eqb c "(" || Ascii.eqb c ")" || Re.unmodelled c)%char.

(** The set of forbidden letters that [wof_solver] builds for a pattern
    that is already in upper case. *)
Definition forbidden_of (pattern : str) (attempted_letters : option (list str))
  : list str :=
  map (fun c => [c]) (filter Py.is_upper pattern)
  ++ extract_attempted_letters pattern attempted_letters.

(** What a pattern character asks of the character that faces it: a
    placeholder wants an upper-case letter outside [forbidden], any other
    character wants itself. *)
Definition cell_fits (forbidden : list str) (p c : ascii) : Prop :=
  if Ascii.eqb p "_"
  then Py.is_upper c = true /\ Py.mem [c] forbidden = false
  else c = p.

(** The atom that [pattern_to_regex], called without forbidden letters,
    and [re.compile] make of a pattern character that is not special. *)
Definition atom_of (c : ascii) : Re.atom :=
  if Ascii.eqb c "_" then Re.CharSet false [Re.SRange "A" "Z"] else Re.Lit c.

(** What the compiled pattern alone asks, character by character. *)
Definition cell_matches (p c : ascii) : Prop :=
  if Ascii.eqb p "_" then Py.is_upper c = true else c = p.

Definition alphabet : str := lit "ABCDEFGHIJKLMNOPQRSTUVWXYZ".

(** The recommendation for an empty list of candidates: every letter that
    was not attempted, in alphabetical order, with weight -1. *)
Definition penalties (attempted : list str) : list (ascii * Z) :=
  map (fun ch => (ch, (-1)%Z))
      (filter (fun ch => negb (Py.mem [ch] attempted)) alphabet).

(** Number of occurrences of [ch] in [s]. *)
Definition occurrences (ch : ascii) (s : str) : Z :=
  Z.of_nat (count_occ ascii_dec s ch).

(** The weight that the candidates give to [ch] under the default weights:
    1 for each occurrence, and 10 more when the candidate is in the phrase
    set. *)
Definition credit (phrase_set : list str) (ch : ascii) (solutions : list str) : Z :=
  fold_right Z.add 0%Z
    (map (fun s => (occurrences ch s * (if Py.mem s phrase_set then 1 + 10 else 1))%Z)
         solutions).

Definition etaoin (ch : ascii) : bool :=
  existsb (Ascii.eqb ch) (lit "ETAOINSHRDLU").

(** The body of the loop of [penalize]. *)
Definition penalize_step (attempted : list str) (counts : Py.Counter) (ch : ascii)
  : Py.Counter :=
  if negb (Py.mem [ch] attempted) && negb (Py.counter_has counts ch)
  then Py.counter_add counts ch (-1)%Z
  else counts.

(** Keys of a counter that records letters outside [attempted] only. *)
Definition keys_ok (attempted : list str) (c : Py.Counter) : Prop :=
  NoDup (map fst c)
  /\ Forall (fun k => Py.is_upper k = true /\ Py.mem [k] attempted = false) (map fst c).

(** Under positive weights every recorded count is positive. *)
Definition all_positive (c : Py.Counter) : Prop := Forall (fun p => (0 < snd p)%Z) c.

(** ** The other modules *)

(** [s.replace(old, new)] for a one-character [old] *)
Definition replace_char (old : ascii) (new : str) (s : str) : str :=
  flat_map (fun ch => if Ascii.eqb ch old then new else [ch]) s.

(** [re.sub(p, repl, s)] where [p] is a character set followed by [+] and
    [cls] tells the characters of the set: every maximal run of such
    characters becomes one [repl]. *)
Fixpoint re_sub_runs (cls : ascii -> bool) (repl : str) (s : str) : str :=
  match s with
  | [] => []
  | c :: r =>
      if cls c then
        match r with
        | d :: _ => if cls d then re_sub_runs cls repl r
                    else repl ++ re_sub_runs cls repl r
        | [] => repl
        end
      else c :: re_sub_runs cls repl r
  end.

(** [wof_solver.py] *)
Module Solver1.

(** The list of the compiled regular expressions, one for each word of
    the pattern, built before any matching. *)
Fixpoint regexes (pattern_words : list str) : result (list (list Re.atom)) :=
  match pattern_words with
  | [] => Ok []
  | w :: rest =>
      rx <- Re.compile (lit "^" ++ replace_char "_" (lit "[A-Z]") w ++ lit "$") ;;
      rxs <- regexes rest ;;
      Ok (rx :: rxs)
  end.

(** [wordlist] is the set of words in the order in which the loop reads
    it. *)
Definition guess_phrase (pattern : str) (wordlist : list str) : result (list str) :=
  let pattern := Py.strip (Py.upper pattern) in
  let pattern_words := Py.split pattern in
  regexes <- regexes pattern_words ;;
  let candidate_lists :=
    map (fun regex => filter (fun w => Re.rmatch regex w) wordlist) regexes in
  Ok (map (Py.join (lit " ")) (Py.product candidate_lists)).

End Solver1.

(** [wof_solver2.py] *)
Module Solver2.

Definition is_digit (c : ascii) : bool := Py.in_range "0" "9" c.

(** The characters that [normalize_phrase] keeps: A to Z, 0 to 9, the
    space, the apostrophe and the double quote. *)
Definition kept (c : ascii) : bool :=
  Py.is_upper c || is_digit c || Ascii.eqb c " " || Ascii.eqb c "'"
  || Ascii.eqb c "034".

Definition normalize_phrase (s : str) : str :=
  let s := Py.upper s in
  let s := re_sub_runs (fun c => negb (kept c)) (lit " ") s in
  Py.strip (re_sub_runs Py.is_space (lit " ") s).

(** The characters that [re.escape] protects with a backslash (Python 3.7
    and later). *)
Definition escaped : str :=
  lit "()[]{}?*+-|^$\.&~# " ++ map ascii_of_N [9; 10; 13; 11; 12]%N.

(** [re.escape(ch)] for a one-character string *)
Definition re_escape (ch : ascii) : str :=
  if existsb (Ascii.eqb ch) escaped then ["\"%char; ch] else [ch].

Definition pattern_to_regex (pattern : str) : str :=
  let pattern := normalize_phrase pattern in
  let regex_parts :=
    flat_map
      (fun ch =>
         if Ascii.eqb ch "_" then lit "[A-Z]"
         else if Ascii.eqb ch " " then lit "\s+"
         else re_escape ch)
      pattern in
  lit "^" ++ regex_parts ++ lit "$".

(** The files of the data directory, by name. *)
Definition data_dir := str -> file.

(** The loop over the other names of the phrase file: the first that
    exists. *)
Fixpoint first_existing (dir : data_dir) (candidates : list str) : file :=
  match candidates with
  | [] => None
  | c :: rest =>
      match dir c with
      | Some f => Some f
      | None => first_existing dir rest
      end
  end.

(** The loop that removes duplicates and keeps the order. *)
Fixpoint dedup (seen : list str) (cleaned : list str) : list str :=
  match cleaned with
  | [] => []
  | ph :: rest =>
      if Py.mem ph seen then dedup seen rest
      else ph :: dedup (ph :: seen) rest
  end.

(** [Dataset._load_phrases]: the value that it gives to [self.phrases]. *)
Definition _load_phrases (dir : data_dir) : list str :=
  let pfile :=
    match dir (lit "phrases.txt") with
    | Some f => Some f
    | None =>
        first_existing dir
          [lit "wof_phrases.txt"; lit "phrases_common.txt"; lit "phrases_all.txt"]
    end in
  match pfile with
  | None => []
  | Some f =>
      let lines := map Py.strip f in
      let cleaned :=
        flat_map
          (fun line =>
             if is_nil line then []
             else
               let norm := normalize_phrase line in
               if Nat.ltb (length norm) 1 then [] else [norm])
          lines in
      dedup [] cleaned
  end.

(** A [collections.Counter] keyed by strings, in insertion order. *)
Definition WordCounter := list (str * Z).

Fixpoint word_get (c : WordCounter) (k : str) : option Z :=
  match c with
  | [] => None
  | (k', v) :: r => if Py.str_eqb k k' then Some v else word_get r k
  end.

(** [c[k] += v] *)
Fixpoint word_add (c : WordCounter) (k : str) (v : Z) : WordCounter :=
  match c with
  | [] => [(k, v)]
  | (k', v') :: r =>
      if Py.str_eqb k k' then (k', (v' + v)%Z) :: r
      else (k', v') :: word_add r k v
  end.

(** [Dataset._derive_word_counts]: the value that it gives to
    [self.word_counts], from [self.phrases] and [self.words]. *)
Definition _derive_word_counts (phrases words : list str) : WordCounter :=
  let counts :=
    fold_left
      (fun counts ph =>
         fold_left (fun counts w => word_add counts w 1%Z) (Py.split ph) counts)
      phrases [] in
  fold_left (fun counts w => word_add counts w 0%Z) words counts.

End Solver2.

(** [build_phrases.py] *)
Module BuildPhrases.

(** [None] is the [None] that the function returns for a phrase that is
    too short or too long. *)
Definition clean_phrase (p : str) : option str :=
  let p := Py.upper p in
  let p :=
    re_sub_runs
      (fun c => negb (Py.is_upper c || Ascii.eqb c "'" || Ascii.eqb c " "))
      (lit " ") p in
  let p := Py.strip (re_sub_runs Py.is_space (lit " ") p) in
  if Nat.leb 3 (length p) && Nat.leb (length p) 40 then Some p else None.

End BuildPhrases.

(** [data/puzzles/puzzle_parser.py] *)
Module PuzzleParser.

Inductive outcome (A : Type) : Type :=
| Returned (a : A)
| ValueError
| FileNotFoundError.
Arguments Returned {A} a.
Arguments ValueError {A}.
Arguments FileNotFoundError {A}.

(** [s.split(sep)] for a one-character separator: the fields between the
    separators, at least one. *)
Fixpoint split_on (sep : ascii) (s : str) : list str :=
  match s with
  | [] => [[]]
  | c :: r =>
      if Ascii.eqb c sep then [] :: split_on sep r
      else match split_on sep r with
           | w :: ws => (c :: w) :: ws
           | [] => [[c]]
           end
  end.

Fixpoint lstrip_char (ch : ascii) (s : str) : str :=
  match s with
  | [] => []
  | c :: r => if Ascii.eqb c ch then lstrip_char ch r else s
  end.

(** [s.rstrip(ch)] for a one-character [ch] *)
Definition rstrip_char (ch : ascii) (s : str) : str :=
  rev (lstrip_char ch (rev s)).

Fixpoint starts_with (prefix s : str) : bool :=
  match prefix, s with
  | [], _ => true
  | p :: prefix', c :: s' => Ascii.eqb p c && starts_with prefix' s'
  | _ :: _, [] => false
  end.

(** [s.replace(old, new)] for a non-empty [old], from left to right;
    [skip] counts the characters of an occurrence of [old] that are still
    to be passed over. *)
Fixpoint replace_from (old new : str) (skip : nat) (s : str) : str :=
  match s with
  | [] => []
  | c :: r =>
      match skip with
      | S k => replace_from old new k r
      | O =>
          if starts_with old s
          then new ++ replace_from old new (length old - 1) r
          else c :: replace_from old new 0 r
      end
  end.

Definition replace (old new s : str) : str := replace_from old new 0 s.

Definition record : Type := (str * str * str * str)%type.

(** The loop over the lines: [number] counts the lines already read. *)
Fixpoint scan (random_int number : nat) (lines : list str)
  : outcome (option record) :=
  match lines with
  | [] => Returned None
  | line :: rest =>
      let line := rstrip_char Re.newline line in
      match split_on "," line with
      | [puzzle; clue; date; game_type] =>
          if Nat.eqb number random_int then
            let clue := replace (lit "&amp;") (lit "&") clue in
            let puzzle := replace (lit "&amp;") (lit "&") puzzle in
            Returned (Some (puzzle, clue, date, game_type))
          else scan random_int (S number) rest
      | _ => ValueError
      end
  end.

(** [random_int] is the number that [random.randint(0, 900)] draws, [f]
    the file [valid.csv]. *)
Definition get_random_puzzle (random_int : nat) (f : file) : outcome (option record) :=
  match f with
  | None => FileNotFoundError
  | Some lines => scan random_int 0 lines
  end.

(** The record that [get_random_puzzle] makes of a line. *)
Definition record_of (line : str) : option record :=
  match split_on "," (rstrip_char Re.newline line) with
  | [puzzle; clue; date; game_type] =>
      Some (replace (lit "&amp;") (lit "&") puzzle,
            replace (lit "&amp;") (lit "&") clue, date, game_type)
  | _ => None
  end.

End PuzzleParser.

(** No two white-space characters side by side, and no white space other
    than the space. *)
Fixpoint single_spaced (s : str) : bool :=
  match s with
  | [] => true
  | c :: r =>
      (negb (Py.is_space c) || Ascii.eqb c " ")
      && match r with
         | d :: _ => negb (Py.is_space c && Py.is_space d)
         | [] => true
         end
      && single_spaced r
  end.

(** * Properties *)

(** ** The model at work *)

Example split_on_white_space :
  Py.split (lit "  TH_ QU_CK   _O_ ") = [lit "TH_"; lit "QU_CK"; lit "_O_"].
Proof. reflexivity. Qed.

Example regex_of_a_pattern :
  pattern_to_regex (lit "TH_ _O_") None = lit "^TH[A-Z] [A-Z]O[A-Z]$".
Proof. reflexivity. Qed.

Example load_list_strips_and_uppercases :
  load_list (Some [lit " cat "; lit ""; lit "The dog"; lit "   "])
  = [lit "CAT"; lit "THE DOG"].
Proof. reflexivity. Qed.

(** One word with a placeholder, no phrases, nothing attempted. *)
Example three_letter_word :
  wof_solver (lit "C_T") None (Some [lit "CAT"; lit "COT"; lit "CUT"; lit "DOG"]) None
  = Ok {| solutions := [lit "CAT"; lit "COT"; lit "CUT"];
          ranked := [lit "CAT"; lit "COT"; lit "CUT"];
          next_letter :=
            [("A", 1); ("O", 1); ("U", 1); ("B", -1); ("D", -1); ("E", -1);
             ("F", -1); ("G", -1); ("H", -1); ("I", -1); ("J", -1); ("K", -1);
             ("L", -1); ("M", -1); ("N", -1); ("P", -1); ("Q", -1); ("R", -1);
             ("S", -1); ("V", -1); ("W", -1); ("X", -1); ("Y", -1);
             ("Z", -1)]%char%Z |}.
Proof. vm_compute. reflexivity. Qed.

(** Attempted letters may not fill a placeholder. *)
Example attempted_letters_are_rejected :
  exists r,
    wof_solver (lit "__") (Some [lit "X"; lit "Y"; lit "Z"])
               (Some [lit "AT"; lit "XY"]) None = Ok r
    /\ solutions r = [lit "AT"].
Proof. eexists. split; vm_compute; reflexivity. Qed.

(** A phrase of the corpus is found by the phrase path and ranked first. *)
Example phrase_is_ranked_first :
  exists r,
    wof_solver (lit "H_ THE_E") None
               (Some [lit "HO"; lit "HI"; lit "THESE"; lit "THERE"])
               (Some [lit "Hi there"]) = Ok r
    /\ solutions r = [lit "HI THERE"; lit "HI THESE"; lit "HO THERE"; lit "HO THESE"]
    /\ ranked r = [lit "HI THERE"; lit "HI THESE"; lit "HO THERE"; lit "HO THESE"]
    /\ score (Some [lit "HI THERE"]) (lit "HI THERE") = 107%Z
    /\ score (Some [lit "HI THERE"]) (lit "HI THESE") = 7%Z.
Proof. eexists. repeat split; vm_compute; reflexivity. Qed.

(** No corpus at all: no candidate, and -1 for each of the 26 letters. *)
Example no_corpus :
  wof_solver (lit "___ __") None None None
  = Ok {| solutions := []; ranked := []; next_letter := penalties [] |}
  /\ length (penalties []) = 26.
Proof. split; vm_compute; reflexivity. Qed.

(** ** Characters and strings *)

Ltac split_bools :=
  repeat match goal with
    | H : _ && _ = true |- _ => apply andb_true_iff in H; destruct H
    | H : _ || _ = false |- _ => apply orb_false_iff in H; destruct H
    | H : negb _ = true |- _ => apply negb_true_iff in H
    | H : negb _ = false |- _ => apply negb_false_iff in H
    end.

Ltac by_cases c :=
  destruct c as [[] [] [] [] [] [] [] []]; vm_compute;
  try reflexivity; try discriminate; auto.

Lemma str_eqb_eq (a b : str) : Py.str_eqb a b = true <-> a = b.
Proof.
  revert b; induction a as [|x a IH]; intros [|y b]; simpl;
    try (split; [discriminate | discriminate]); try tauto.
  rewrite andb_true_iff, Ascii.eqb_eq, IH.
  split; [intros [-> ->]; reflexivity | intros H; inversion H; auto].
Qed.

Lemma str_eqb_refl (a : str) : Py.str_eqb a a = true.
Proof. apply str_eqb_eq; reflexivity. Qed.

Lemma mem_In (x : str) (s : list str) : Py.mem x s = true <-> In x s.
Proof.
  unfold Py.mem. rewrite existsb_exists. split.
  - intros [y [Hy E]]. apply str_eqb_eq in E. subst; assumption.
  - intros H. exists x. split; [assumption | apply str_eqb_refl].
Qed.

Lemma mem_app (x : str) (s t : list str) :
  Py.mem x (s ++ t) = Py.mem x s || Py.mem x t.
Proof. unfold Py.mem. apply existsb_app. Qed.

Lemma upper_not_space (c : ascii) : Py.is_upper c = true -> Py.is_space c = false.
Proof. by_cases c. Qed.

Lemma upper_char_space (c : ascii) : Py.is_space (Py.upper_char c) = Py.is_space c.
Proof. by_cases c. Qed.

Lemma upper_char_fixes (c : ascii) : Py.is_lower c = false -> Py.upper_char c = c.
Proof. unfold Py.upper_char. intros ->. reflexivity. Qed.

Lemma upper_char_idem (c : ascii) : Py.upper_char (Py.upper_char c) = Py.upper_char c.
Proof. by_cases c. Qed.

Lemma upper_idem (s : str) : Py.upper (Py.upper s) = Py.upper s.
Proof.
  unfold Py.upper. rewrite map_map. apply map_ext. intros; apply upper_char_idem.
Qed.

Lemma cell_not_lower (c : ascii) :
  is_cell c || Ascii.eqb c " " = true -> Py.is_lower c = false.
Proof. by_cases c. Qed.

Lemma cell_not_special (c : ascii) :
  is_cell c || Ascii.eqb c " " = true -> special c = false.
Proof. by_cases c. Qed.

Lemma cell_not_space (c : ascii) : is_cell c = true -> Py.is_space c = false.
Proof. by_cases c. Qed.

Lemma upper_in_alphabet (c : ascii) : Py.is_upper c = true -> In c alphabet.
Proof.
  destruct c as [[] [] [] [] [] [] [] []]; vm_compute; try discriminate;
    intros _; tauto.
Qed.

Lemma alphabet_upper (c : ascii) : In c alphabet -> Py.is_upper c = true.
Proof.
  intros H. vm_compute in H.
  repeat (destruct H as [<- | H]; [reflexivity|]). contradiction.
Qed.

Lemma special_upper_char (c : ascii) :
  special c = false -> special (Py.upper_char c) = false.
Proof. by_cases c. Qed.

(** ** Sorting *)

Section SortFacts.
Context {A : Type} (leb : A -> A -> bool).
Hypothesis leb_total : forall x y, leb x y = true \/ leb y x = true.
Hypothesis leb_trans :
  forall x y z, leb x y = true -> leb y z = true -> leb x z = true.

Lemma insert_perm (x : A) (l : list A) : Permutation (Py.insert leb x l) (x :: l).
Proof.
  induction l as [|y l IH]; simpl; [reflexivity|].
  destruct (leb x y); [reflexivity|].
  rewrite IH. apply perm_swap.
Qed.

Lemma sort_perm (l : list A) : Permutation (Py.sort leb l) l.
Proof.
  induction l as [|x l IH]; simpl; [reflexivity|].
  rewrite insert_perm. constructor. exact IH.
Qed.

Lemma insert_sorted (x : A) (l : list A) :
  StronglySorted (fun a b => leb a b = true) l ->
  StronglySorted (fun a b => leb a b = true) (Py.insert leb x l).
Proof.
  induction 1 as [|y l Hs IH Hy]; simpl.
  - constructor; constructor.
  - destruct (leb x y) eqn:E.
    + constructor; [constructor; assumption|].
      constructor; [assumption|].
      rewrite Forall_forall in *. intros z Hz. eauto.
    + constructor; [assumption|].
      rewrite Forall_forall in *. intros z Hz.
      apply (Permutation_in _ (insert_perm x l)) in Hz.
      destruct Hz as [<- | Hz]; [|auto].
      destruct (leb_total x y) as [H|H]; congruence.
Qed.

Lemma sort_sorted (l : list A) :
  StronglySorted (fun a b => leb a b = true) (Py.sort leb l).
Proof.
  induction l as [|x l IH]; simpl; [constructor | apply insert_sorted, IH].
Qed.
End SortFacts.

Lemma str_leb_total (a b : str) : Py.str_leb a b = true \/ Py.str_leb b a = true.
Proof.
  revert b; induction a as [|x a IH]; intros [|y b]; simpl; auto.
  destruct (Py.code x <? Py.code y)%N eqn:E1; auto.
  destruct (Py.code y <? Py.code x)%N eqn:E2; auto.
Qed.

Lemma str_leb_trans (a b c : str) :
  Py.str_leb a b = true -> Py.str_leb b c = true -> Py.str_leb a c = true.
Proof.
  revert b c; induction a as [|x a IH]; intros [|y b] [|z c]; simpl; auto;
    try discriminate.
  destruct (Py.code x <? Py.code y)%N eqn:E1,
           (Py.code y <? Py.code x)%N eqn:E2,
           (Py.code y <? Py.code z)%N eqn:E3,
           (Py.code z <? Py.code y)%N eqn:E4,
           (Py.code x <? Py.code z)%N eqn:E5,
           (Py.code z <? Py.code x)%N eqn:E6;
    try discriminate; auto;
    rewrite ?N.ltb_lt, ?N.ltb_ge in *; try lia.
  apply IH.
Qed.

Lemma sorted_str_perm (l : list str) : Permutation (Py.sorted_str l) l.
Proof. apply sort_perm. Qed.

Lemma sorted_str_sorted (l : list str) :
  StronglySorted (fun a b => Py.str_leb a b = true) (Py.sorted_str l).
Proof. apply sort_sorted; [apply str_leb_total | apply str_leb_trans]. Qed.

Lemma sorted_desc_perm {A : Type} (key : A -> Z) (l : list A) :
  Permutation (Py.sorted_desc key l) l.
Proof. apply sort_perm. Qed.

Lemma sorted_desc_sorted {A : Type} (key : A -> Z) (l : list A) :
  StronglySorted (fun a b => (key b <= key a)%Z) (Py.sorted_desc key l).
Proof.
  assert (H : StronglySorted (fun a b => (key b <=? key a)%Z = true)
                (Py.sorted_desc key l)).
  { apply sort_sorted.
    - intros x y. rewrite !Z.leb_le. lia.
    - intros x y z. rewrite !Z.leb_le. lia. }
  induction H; constructor; auto.
  eapply Forall_impl; [|eassumption]. intros b. apply Z.leb_le.
Qed.

Lemma set_of_list_In (x : str) (l : list str) : In x (Py.set_of_list l) <-> In x l.
Proof.
  induction l as [|y l IH]; simpl; [tauto|].
  destruct (Py.mem y l) eqn:E.
  - rewrite IH. apply mem_In in E. split; [auto|]. intros [<-|H]; auto.
  - simpl. rewrite IH. tauto.
Qed.

Lemma set_of_list_NoDup (l : list str) : NoDup (Py.set_of_list l).
Proof.
  induction l as [|y l IH]; simpl; [constructor|].
  destruct (Py.mem y l) eqn:E; [assumption|].
  constructor; [|assumption].
  rewrite set_of_list_In, <- mem_In. congruence.
Qed.

Lemma sorted_adjacent {A : Type} (R : A -> A -> Prop) (l : list A) :
  StronglySorted R l ->
  forall i a b, nth_error l i = Some a -> nth_error l (S i) = Some b -> R a b.
Proof.
  induction 1 as [|x l Hs IH Hx]; intros i a b Ha Hb.
  - destruct i; discriminate.
  - destruct i as [|i]; simpl in *.
    + inversion Ha; subst. rewrite Forall_forall in Hx. apply Hx.
      destruct l; [discriminate|]. simpl in Hb. inversion Hb. left; reflexivity.
    + eapply IH; eassumption.
Qed.

Lemma code_inj (x y : ascii) : Py.code x = Py.code y -> x = y.
Proof.
  unfold Py.code. intros H.
  rewrite <- (ascii_N_embedding x), <- (ascii_N_embedding y), H. reflexivity.
Qed.

Lemma str_leb_antisym (a b : str) :
  Py.str_leb a b = true -> Py.str_leb b a = true -> a = b.
Proof.
  revert b; induction a as [|x a IH]; intros [|y b]; simpl; try discriminate; auto.
  destruct (Py.code x <? Py.code y)%N eqn:E1,
           (Py.code y <? Py.code x)%N eqn:E2; try discriminate;
    rewrite ?N.ltb_lt, ?N.ltb_ge in *; try lia.
  intros H1 H2. f_equal; [apply code_inj; lia | apply IH; assumption].
Qed.

(** Two sorted lists without duplicates that hold the same elements are
    equal: the order in which a set is read does not show after
    [sorted]. *)
Lemma sorted_unique {A : Type} (R : A -> A -> Prop) (l1 l2 : list A) :
  (forall x y, R x y -> R y x -> x = y) ->
  StronglySorted R l1 -> StronglySorted R l2 ->
  NoDup l1 -> NoDup l2 ->
  (forall x, In x l1 <-> In x l2) ->
  l1 = l2.
Proof.
  intros Anti S1. revert l2. induction S1 as [|x l1 S1 IH F1]; intros l2 S2 N1 N2 Same.
  - destruct l2 as [|y l2]; [reflexivity|].
    exfalso. apply (Same y). left; reflexivity.
  - destruct S2 as [|y l2 S2 F2].
    + exfalso. apply (Same x). left; reflexivity.
    + rewrite Forall_forall in F1, F2.
      inversion N1 as [|x' l1' Nx N1']; inversion N2 as [|y' l2' Ny N2']; subst.
      assert (E : x = y).
      { destruct (proj1 (Same x) (or_introl eq_refl)) as [E | Hx]; [auto|].
        destruct (proj2 (Same y) (or_introl eq_refl)) as [E | Hy]; [auto|].
        apply Anti; auto. }
      subst y. f_equal. apply IH; try assumption.
      intros z. split; intros Hz.
      * destruct (proj1 (Same z) (or_intror Hz)) as [E | H]; [|assumption].
        subst z. contradiction.
      * destruct (proj2 (Same z) (or_intror Hz)) as [E | H]; [|assumption].
        subst z. contradiction.
Qed.

(** ** Compiling and matching patterns *)

Lemma parse_literal (c : ascii) (rest : str) :
  special c = false ->
  Re.parse Re.Top (c :: rest) = Re.cons_atom (Re.Lit c) (Re.parse Re.Top rest).
Proof.
  unfold special. intros H. split_bools. simpl.
  repeat match goal with E : _ = false |- _ => rewrite E; clear E end.
  reflexivity.
Qed.

Lemma parse_placeholder (rest : str) :
  Re.parse Re.Top (lit "[A-Z]" ++ rest)
  = Re.cons_atom (atom_of "_") (Re.parse Re.Top rest).
Proof. reflexivity. Qed.

(** The regular expression of a pattern without special characters is the
    sequence of the atoms of its characters between the two anchors,
    whatever the forbidden letters of the solver: [phrase_matches] and
    [match_words] call [pattern_to_regex] without them. *)
Lemma parse_cells (pattern rest : str) :
  Forall (fun c => special c = false) pattern ->
  Re.parse Re.Top
    (flat_map (fun ch => if Ascii.eqb ch "_" then lit "[A-Z]"
                         else if Py.is_upper ch then [ch] else [ch]) pattern
     ++ rest)
  = (r <- Re.parse Re.Top rest ;; Ok (map atom_of pattern ++ r)).
Proof.
  induction 1 as [|c pattern Hc _ IH]; cbn [flat_map map].
  - simpl. destruct (Re.parse Re.Top rest); reflexivity.
  - rewrite <- app_assoc. unfold atom_of at 1.
    destruct (Ascii.eqb c "_") eqn:E.
    + rewrite parse_placeholder, IH.
      destruct (Re.parse Re.Top rest); reflexivity.
    + assert (L : (if Py.is_upper c then [c] else [c]) = [c])
        by (destruct (Py.is_upper c); reflexivity).
      rewrite L. cbn [app]. rewrite parse_literal by assumption. rewrite IH.
      destruct (Re.parse Re.Top rest); reflexivity.
Qed.

Lemma compile_pattern (pattern : str) :
  Forall (fun c => special c = false) pattern ->
  Re.compile (pattern_to_regex pattern None)
  = Ok (Re.Bol :: map atom_of pattern ++ [Re.Eol]).
Proof.
  intros H. unfold Re.compile, pattern_to_regex. cbn [Py.join is_nil negb].
  change (lit "^" ++ ?x) with ("^"%char :: x).
  cbn [Re.parse Ascii.eqb Bool.eqb].
  rewrite (parse_cells pattern (lit "$") H). reflexivity.
Qed.

Lemma accepts_atom_of (p c : ascii) :
  Re.accepts (atom_of p) c = true <-> cell_matches p c.
Proof.
  unfold atom_of, cell_matches. destruct (Ascii.eqb p "_"); simpl.
  - rewrite orb_false_r. reflexivity.
  - apply Ascii.eqb_eq.
Qed.

Lemma run_atom_of (p : ascii) (k : list Re.atom) (b : bool) (s : str) :
  Re.run (atom_of p :: k) b s
  = match s with
    | [] => false
    | c :: s' => Re.accepts (atom_of p) c && Re.run k false s'
    end.
Proof. unfold atom_of. destruct (Ascii.eqb p "_"); reflexivity. Qed.

Lemma run_cells (pattern : str) (b : bool) (s : str) :
  Re.run (map atom_of pattern ++ [Re.Eol]) b s = true <->
  exists s', Forall2 cell_matches pattern s' /\ (s = s' \/ s = s' ++ [Re.newline]).
Proof.
  revert b s; induction pattern as [|p pattern IH]; intros b s.
  - cbn [map app Re.run]. rewrite andb_true_r, orb_true_iff, str_eqb_eq. split.
    + intros [H|H].
      * destruct s; [|discriminate]. exists []. split; [constructor | auto].
      * exists []. split; [constructor | auto].
    + intros [s' [H [E|E]]]; inversion H; subst; auto.
  - cbn [map app]. rewrite run_atom_of. split.
    + destruct s as [|c s]; [discriminate|]. intros H. split_bools.
      apply accepts_atom_of in H. apply IH in H0.
      destruct H0 as [s' [F E]]. exists (c :: s'). split; [constructor; assumption|].
      destruct E as [-> | ->]; auto.
    + intros [s' [F E]]. inversion F as [|p' c pat t Hc Ft]; subst.
      destruct E as [-> | ->]; cbn [app]; apply andb_true_iff; split;
        try (apply accepts_atom_of; assumption);
        apply IH; exists t; auto.
Qed.

Lemma rmatch_pattern (pattern s : str) :
  Re.rmatch (Re.Bol :: map atom_of pattern ++ [Re.Eol]) s = true <->
  exists s', Forall2 cell_matches pattern s' /\ (s = s' \/ s = s' ++ [Re.newline]).
Proof. unfold Re.rmatch. cbn [Re.run andb]. apply run_cells. Qed.

Lemma blanks_ok_fits (forbidden : list str) (pattern s extra : str) :
  Forall2 cell_matches pattern s ->
  blanks_ok pattern (s ++ extra) forbidden = true ->
  Forall2 (cell_fits forbidden) pattern s.
Proof.
  induction 1 as [|p c pattern s Hc _ IH]; intros B; [constructor|].
  simpl in B. unfold cell_matches in Hc. unfold cell_fits at 1.
  destruct (Ascii.eqb p "_") eqn:E; simpl in B.
  - destruct (Py.mem [c] forbidden) eqn:M; [discriminate|].
    constructor; [rewrite E; auto | auto].
  - constructor; [rewrite E; auto | auto].
Qed.

Lemma fits_blanks_ok (forbidden : list str) (pattern s : str) :
  Forall2 (cell_fits forbidden) pattern s ->
  Forall2 cell_matches pattern s /\ blanks_ok pattern s forbidden = true.
Proof.
  induction 1 as [|p c pattern s Hc _ [IH1 IH2]]; [split; [constructor | reflexivity]|].
  unfold cell_fits in Hc. simpl. unfold cell_matches at 1.
  destruct (Ascii.eqb p "_") eqn:E.
  - destruct Hc as [U M]. rewrite M. simpl. split; [constructor|]; auto.
    unfold cell_matches. rewrite E. exact U.
  - simpl. split; [constructor|]; auto. unfold cell_matches. rewrite E. exact Hc.
Qed.

(** ** Loading the corpora *)

Lemma lstrip_head (s : str) :
  Py.lstrip s = [] \/ exists c t, Py.lstrip s = c :: t /\ Py.is_space c = false.
Proof.
  induction s as [|c s IH]; simpl; [auto|].
  destruct (Py.is_space c) eqn:E; [assumption|].
  right. exists c, s. auto.
Qed.

Lemma strip_last (s : str) :
  Py.strip s = [] \/ exists t c, Py.strip s = t ++ [c] /\ Py.is_space c = false.
Proof.
  unfold Py.strip. destruct (lstrip_head (rev (Py.lstrip s))) as [-> | [c [t [-> H]]]].
  - left; reflexivity.
  - right. exists (rev t), c. simpl. auto.
Qed.

(** No line of a loaded corpus is empty or ends with white space. *)
Lemma load_list_last (path : file) (p : str) :
  In p (load_list path) ->
  exists t c, p = t ++ [c] /\ Py.is_space c = false.
Proof.
  destruct path as [f|]; simpl; [|contradiction].
  rewrite in_map_iff. intros [line [<- H]]. apply filter_In in H.
  destruct H as [_ H]. destruct (strip_last line) as [E | [t [c [E S]]]].
  - rewrite E in H. discriminate.
  - rewrite E. exists (Py.upper t), (Py.upper_char c). split.
    + unfold Py.upper. rewrite map_app. reflexivity.
    + rewrite upper_char_space. exact S.
Qed.

Lemma load_list_no_newline (path : file) (p s : str) :
  In p (load_list path) -> p <> s ++ [Re.newline].
Proof.
  intros H E. apply load_list_last in H. destruct H as [t [c [-> S]]].
  apply app_inj_tail in E. destruct E as [_ ->]. discriminate.
Qed.

(** ** The two generation paths *)

Lemma phrase_matches_plain (pattern : str) (phrases forbidden : list str) :
  Forall (fun c => special c = false) pattern ->
  phrase_matches pattern phrases forbidden
  = Ok (filter (fun p => Re.rmatch (Re.Bol :: map atom_of pattern ++ [Re.Eol]) p
                         && blanks_ok pattern p forbidden) phrases).
Proof. intros H. unfold phrase_matches. rewrite compile_pattern by assumption. reflexivity. Qed.

Lemma match_words_plain (words : list str) (part : str) (forbidden : list str) :
  Forall (fun c => special c = false) part ->
  match_words words part forbidden
  = Ok (filter (fun w => Nat.eqb (length w) (length part)
                         && Re.rmatch (Re.Bol :: map atom_of part ++ [Re.Eol]) w
                         && blanks_ok part w forbidden) words).
Proof. intros H. unfold match_words. rewrite compile_pattern by assumption. reflexivity. Qed.

Lemma phrase_matches_fits (pattern : str) (phrases forbidden pm : list str) (c : str) :
  Forall (fun c => special c = false) pattern ->
  (forall p s, In p phrases -> p <> s ++ [Re.newline]) ->
  phrase_matches pattern phrases forbidden = Ok pm ->
  In c pm ->
  In c phrases /\ Forall2 (cell_fits forbidden) pattern c.
Proof.
  intros Hp Hn E Hc. rewrite phrase_matches_plain in E by assumption.
  inversion E; subst; clear E. apply filter_In in Hc. destruct Hc as [Hin H].
  split; [assumption|]. split_bools.
  apply rmatch_pattern in H. destruct H as [s' [F [-> | ->]]].
  - apply blanks_ok_fits with (extra := []); [assumption|].
    rewrite app_nil_r. assumption.
  - exfalso. eapply Hn; [exact Hin | reflexivity].
Qed.

Lemma match_words_fits (words : list str) (part : str) (forbidden ms : list str) (w : str) :
  Forall (fun c => special c = false) part ->
  match_words words part forbidden = Ok ms ->
  In w ms <-> In w words /\ Forall2 (cell_fits forbidden) part w.
Proof.
  intros Hp E. rewrite match_words_plain in E by assumption.
  inversion E; subst; clear E. rewrite filter_In. split.
  - intros [Hin H]. split; [assumption|]. split_bools.
    apply Nat.eqb_eq in H. apply rmatch_pattern in H1.
    destruct H1 as [s' [F [-> | ->]]].
    + apply blanks_ok_fits with (extra := []); [assumption|].
      rewrite app_nil_r. assumption.
    + apply Forall2_length in F. rewrite length_app in H. simpl in H. lia.
  - intros [Hin F]. split; [assumption|].
    pose proof (Forall2_length F) as L. apply fits_blanks_ok in F.
    destruct F as [F B]. rewrite B, andb_true_r. apply andb_true_iff. split.
    + apply Nat.eqb_eq. auto.
    + apply rmatch_pattern. exists w. auto.
Qed.

Lemma candidate_lists_fits (parts : list str) (words forbidden : list str)
  (lists : list (list str)) :
  Forall (Forall (fun c => special c = false)) parts ->
  candidate_lists parts words forbidden = Ok (Some lists) ->
  Forall2 (fun part ms => forall w, In w ms -> Forall2 (cell_fits forbidden) part w)
          parts lists.
Proof.
  intros H. revert lists. induction H as [|part parts Hp _ IH]; intros lists E.
  - simpl in E. inversion E. constructor.
  - simpl in E. destruct (match_words words part forbidden) as [ms| |] eqn:M;
      simpl in E; try discriminate.
    destruct (is_nil ms); [discriminate|].
    destruct (candidate_lists parts words forbidden) as [[ls|]| |];
      simpl in E; try discriminate.
    inversion E; subst. constructor; [|apply IH; reflexivity].
    intros w Hw. eapply match_words_fits in Hw; [|eassumption|eassumption].
    tauto.
Qed.

Lemma product_In {A : Type} (lists : list (list A)) (xs : list A) :
  In xs (Py.product lists) <-> Forall2 (fun l x => In x l) lists xs.
Proof.
  revert xs; induction lists as [|l lists IH]; intros xs; simpl.
  - split.
    + intros [<- | []]. constructor.
    + intros H. inversion H. auto.
  - rewrite in_flat_map. split.
    + intros [x [Hx H]]. apply in_map_iff in H. destruct H as [ys [<- H]].
      constructor; [assumption | apply IH; assumption].
    + intros H. inversion H as [|l' x ls ys Hx Hys]; subst.
      exists x. split; [assumption|]. apply in_map. apply IH. assumption.
Qed.

Lemma join_Forall2 {R : ascii -> ascii -> Prop} (sep : str) (xs ys : list str) :
  Forall2 R sep sep ->
  Forall2 (Forall2 R) xs ys ->
  Forall2 R (Py.join sep xs) (Py.join sep ys).
Proof.
  intros Hsep. induction 1 as [|x y xs ys Hxy Hrest IH]; [constructor|].
  destruct Hrest as [|x' y' xs' ys' H' Hrest'].
  - simpl. assumption.
  - change (Forall2 R (x ++ sep ++ Py.join sep (x' :: xs'))
                      (y ++ sep ++ Py.join sep (y' :: ys'))).
    repeat apply Forall2_app; assumption.
Qed.

(** ** Splitting and joining *)

Lemma split_Forall (Q : ascii -> Prop) (s : str) :
  Forall Q s -> Forall (Forall Q) (Py.split s).
Proof.
  induction 1 as [|c r Hc Hr IH]; simpl; [constructor|].
  destruct (Py.is_space c); [assumption|].
  destruct r as [|d r']; [repeat constructor; assumption|].
  destruct (Py.is_space d); [constructor; [repeat constructor; assumption | assumption]|].
  destruct (Py.split (d :: r')) as [|w ws].
  - repeat constructor; assumption.
  - inversion IH; subst. constructor; [constructor|]; assumption.
Qed.

Lemma split_cons_space (c : ascii) (r : str) :
  Py.is_space c = true -> Py.split (c :: r) = Py.split r.
Proof. intros H. simpl. rewrite H. reflexivity. Qed.

Lemma split_cons_word (c d : ascii) (r : str) :
  Py.is_space c = false -> Py.is_space d = false ->
  exists w ws, Py.split (d :: r) = w :: ws /\ Py.split (c :: d :: r) = (c :: w) :: ws.
Proof.
  intros Hc Hd.
  assert (N : exists w ws, Py.split (d :: r) = w :: ws).
  { simpl. rewrite Hd. destruct r as [|e r]; [eauto|].
    destruct (Py.is_space e); [eauto|]. destruct (Py.split (e :: r)); eauto. }
  destruct N as [w [ws E]]. exists w, ws. split; [assumption|].
  change (Py.split (c :: d :: r))
    with (if Py.is_space c then Py.split (d :: r)
          else if Py.is_space d then [c] :: Py.split (d :: r)
               else match Py.split (d :: r) with
                    | w :: ws => (c :: w) :: ws
                    | [] => [[c]]
                    end).
  rewrite Hc, Hd, E. reflexivity.
Qed.

Lemma split_cons_last (c d : ascii) (r : str) :
  Py.is_space c = false -> Py.is_space d = true ->
  Py.split (c :: d :: r) = [c] :: Py.split r.
Proof. intros Hc Hd. simpl. rewrite Hc, Hd. reflexivity. Qed.

Lemma split_single (c : ascii) : Py.is_space c = false -> Py.split [c] = [[c]].
Proof. intros Hc. simpl. rewrite Hc. reflexivity. Qed.

Lemma join_cons_word (sep : str) (c : ascii) (w : str) (ws : list str) :
  Py.join sep ((c :: w) :: ws) = c :: Py.join sep (w :: ws).
Proof. destruct ws; reflexivity. Qed.

Lemma valid_pattern_cases (p : str) :
  valid_pattern p = true ->
  exists c r, p = c :: r /\ is_cell c = true
    /\ (r = []
        \/ (exists r', r = " "%char :: r' /\ valid_pattern r' = true)
        \/ (exists d r', r = d :: r' /\ is_cell d = true /\ valid_pattern r = true)).
Proof.
  destruct p as [|c r]; [discriminate|]. intros H. simpl in H. split_bools.
  exists c, r. split; [reflexivity|]. split; [assumption|].
  destruct r as [|d r']; [auto|]. right.
  destruct (Ascii.eqb d " ") eqn:E.
  - apply Ascii.eqb_eq in E. subst. left. eauto.
  - right. exists d, r'. split; [reflexivity|]. split; [|assumption].
    simpl in H0. split_bools. assumption.
Qed.

Lemma valid_pattern_facts (n : nat) (p : str) :
  length p <= n ->
  valid_pattern p = true ->
  Forall (fun c => is_cell c || Ascii.eqb c " " = true) p
  /\ Py.split p <> []
  /\ Py.join (lit " ") (Py.split p) = p.
Proof.
  revert p; induction n as [|n IH]; intros p L V;
    apply valid_pattern_cases in V;
    destruct V as [c [r [-> [Hc V]]]]; simpl in L; [lia|].
  pose proof (cell_not_space c Hc) as Sc.
  assert (Qc : is_cell c || Ascii.eqb c " " = true) by (rewrite Hc; reflexivity).
  destruct V as [-> | [[r' [-> V]] | [d [r' [-> [Hd V]]]]]].
  - rewrite split_single by assumption.
    split; [repeat constructor; assumption|]. split; [discriminate | reflexivity].
  - simpl in L. destruct (IH r') as [F [N J]]; [lia | assumption |].
    rewrite split_cons_last by (assumption || reflexivity).
    split; [repeat constructor; assumption|]. split; [discriminate|].
    destruct (Py.split r') as [|w ws] eqn:E; [congruence|].
    change (Py.join (lit " ") ([c] :: w :: ws))
      with (c :: " "%char :: Py.join (lit " ") (w :: ws)).
    rewrite J. reflexivity.
  - destruct (IH (d :: r')) as [F [N J]]; [lia | assumption |].
    pose proof (cell_not_space d Hd) as Sd.
    destruct (split_cons_word c d r' Sc Sd) as [w [ws [E1 E2]]].
    rewrite E2. split; [constructor; assumption|]. split; [discriminate|].
    rewrite join_cons_word, <- E1, J. reflexivity.
Qed.

Lemma valid_pattern_chars (p : str) :
  valid_pattern p = true -> Forall (fun c => is_cell c || Ascii.eqb c " " = true) p.
Proof. intros V. apply (valid_pattern_facts (length p) p (le_n _) V). Qed.

Lemma valid_pattern_join (p : str) :
  valid_pattern p = true -> Py.join (lit " ") (Py.split p) = p.
Proof. intros V. apply (valid_pattern_facts (length p) p (le_n _) V). Qed.

Lemma valid_pattern_upper (p : str) : valid_pattern p = true -> Py.upper p = p.
Proof.
  intros V. apply valid_pattern_chars in V. unfold Py.upper.
  induction V as [|c p Hc _ IH]; simpl; [reflexivity|].
  rewrite IH, upper_char_fixes; [reflexivity | apply cell_not_lower; assumption].
Qed.

Lemma valid_pattern_plain (p : str) :
  valid_pattern p = true -> Forall (fun c => special c = false) p.
Proof.
  intros V. apply valid_pattern_chars in V.
  eapply Forall_impl; [|exact V]. apply cell_not_special.
Qed.

(** Strings with white space at the same places split into words of the
    same lengths. *)
Lemma split_shape (p c : str) :
  Forall2 (fun x y => Py.is_space x = Py.is_space y) p c ->
  map (@length ascii) (Py.split p) = map (@length ascii) (Py.split c).
Proof.
  induction 1 as [|x y p c Hxy Hrest IH]; [reflexivity|].
  destruct (Py.is_space x) eqn:Sx.
  - rewrite !split_cons_space by congruence. exact IH.
  - assert (Sy : Py.is_space y = false) by congruence.
    destruct Hrest as [|x' y' p' c' Hxy' Hrest'].
    + rewrite !split_single by assumption. reflexivity.
    + destruct (Py.is_space x') eqn:Sx'.
      * rewrite !split_cons_last by congruence.
        rewrite !split_cons_space in IH by congruence.
        simpl. f_equal. exact IH.
      * assert (Sy' : Py.is_space y' = false) by congruence.
        destruct (split_cons_word x x' p' Sx Sx') as [w [ws [E1 E2]]].
        destruct (split_cons_word y y' c' Sy Sy') as [v [vs [F1 F2]]].
        rewrite E2, F2. rewrite E1, F1 in IH. simpl in *.
        inversion IH. congruence.
Qed.

Lemma cell_fits_space (forbidden : list str) (p c : ascii) :
  cell_fits forbidden p c -> Py.is_space p = Py.is_space c.
Proof.
  unfold cell_fits. destruct (Ascii.eqb p "_") eqn:E.
  - apply Ascii.eqb_eq in E. subst. intros [U _].
    rewrite (upper_not_space c U). reflexivity.
  - intros ->. reflexivity.
Qed.

Lemma Forall2_nth_error {A B : Type} (R : A -> B -> Prop) (l : list A) (m : list B) :
  Forall2 R l m ->
  forall i a, nth_error l i = Some a -> exists b, nth_error m i = Some b /\ R a b.
Proof.
  induction 1 as [|x y l m Hxy _ IH]; intros i a Ha.
  - destruct i; discriminate.
  - destruct i as [|i]; simpl in *.
    + inversion Ha; subst. eauto.
    + apply IH. assumption.
Qed.

(** ** The solver, step by step *)

Lemma is_nil_true {A : Type} (l : list A) : is_nil l = true -> l = [].
Proof. destruct l; [reflexivity | discriminate]. Qed.

Lemma wof_solver_steps (pattern : str) (attempted_letters : option (list str))
  (words_path phrases_path : file) (r : solver_result) :
  wof_solver pattern attempted_letters words_path phrases_path = Ok r ->
  exists from_phrases word_based,
    phrase_matches (Py.upper pattern) (load_list phrases_path)
      (forbidden_of (Py.upper pattern) attempted_letters) = Ok from_phrases
    /\ solve_pattern (Py.upper pattern) (load_list words_path)
         (forbidden_of (Py.upper pattern) attempted_letters) = Ok word_based
    /\ solutions r = Py.sorted_str (Py.set_of_list (from_phrases ++ word_based))
    /\ ranked r = rank_solutions (solutions r) (Some (load_list phrases_path))
    /\ next_letter r
       = recommend_next_letter (ranked r)
           (extract_attempted_letters (Py.upper pattern) attempted_letters)
           None (load_list phrases_path).
Proof.
  unfold wof_solver, forbidden_of. cbv zeta.
  destruct (phrase_matches _ _ _) as [pm| |]; simpl; try discriminate.
  destruct (solve_pattern _ _ _) as [wb| |]; simpl; try discriminate.
  destruct (is_nil _) eqn:E; intros H; inversion H; subst; clear H;
    exists pm, wb; simpl; repeat split; try reflexivity.
  apply is_nil_true in E. rewrite E. reflexivity.
Qed.

Lemma solutions_In (from_phrases word_based : list str) (c : str) :
  In c (Py.sorted_str (Py.set_of_list (from_phrases ++ word_based)))
  <-> In c from_phrases \/ In c word_based.
Proof.
  rewrite <- in_app_iff, <- (set_of_list_In c (from_phrases ++ word_based)).
  split; intros H.
  - eapply Permutation_in; [apply sorted_str_perm | exact H].
  - eapply Permutation_in; [symmetry; apply sorted_str_perm | exact H].
Qed.

Lemma solve_pattern_fits (pattern : str) (words forbidden word_based : list str)
  (c : str) :
  Forall (fun c => special c = false) pattern ->
  solve_pattern pattern words forbidden = Ok word_based ->
  In c word_based ->
  Forall2 (cell_fits forbidden)
          (Py.join (lit " ") (Py.split pattern)) c.
Proof.
  intros Hp E Hc. unfold solve_pattern in E.
  destruct (candidate_lists _ _ _) as [[lists|]| |] eqn:L; simpl in E;
    try discriminate; inversion E; subst; clear E; [|contradiction].
  apply candidate_lists_fits in L; [|apply split_Forall; assumption].
  apply in_map_iff in Hc. destruct Hc as [ws [<- Hws]].
  apply product_In in Hws. apply join_Forall2.
  - repeat constructor.
  - clear Hp. revert ws Hws. induction L as [|part ms parts lists H _ IH];
      intros ws Hws; inversion Hws; subst; constructor; auto.
Qed.

(** Every candidate of [wof_solver] on a valid pattern faces the pattern
    cell by cell. *)
Lemma solutions_fit (pattern : str) (attempted_letters : option (list str))
  (words_path phrases_path : file) (r : solver_result) (c : str) :
  valid_pattern pattern = true ->
  wof_solver pattern attempted_letters words_path phrases_path = Ok r ->
  In c (solutions r) ->
  Forall2 (cell_fits (forbidden_of pattern attempted_letters)) pattern c.
Proof.
  intros V E Hc. apply wof_solver_steps in E.
  rewrite (valid_pattern_upper pattern V) in E.
  destruct E as [pm [wb [E1 [E2 [E3 _]]]]].
  rewrite E3 in Hc. apply solutions_In in Hc.
  pose proof (valid_pattern_plain pattern V) as Hp.
  destruct Hc as [Hc | Hc].
  - eapply phrase_matches_fits in E1; [apply E1 | assumption | | exact Hc].
    intros p s Hin. eapply load_list_no_newline; eassumption.
  - rewrite <- (valid_pattern_join pattern V) at 2.
    eapply solve_pattern_fits; eassumption.
Qed.

(** ** Candidates and the pattern *)

(** C1: for a valid pattern, every candidate in [solutions] has the word
    count and the word lengths of the pattern (and its length), shows
    every fixed letter of the pattern at its position, and holds in each
    placeholder position an upper-case letter that is not in the
    attempted-letter set. *)
Theorem solutions_respect_pattern (pattern : str)
  (attempted_letters : option (list str)) (words_path phrases_path : file)
  (r : solver_result) (c : str) :
  valid_pattern pattern = true ->
  wof_solver pattern attempted_letters words_path phrases_path = Ok r ->
  In c (solutions r) ->
  map (@length ascii) (Py.split c) = map (@length ascii) (Py.split pattern)
  /\ length c = length pattern
  /\ (forall i ch, nth_error pattern i = Some ch -> Py.is_upper ch = true ->
                   nth_error c i = Some ch)
  /\ (forall i, nth_error pattern i = Some "_"%char ->
        exists ch, nth_error c i = Some ch
                   /\ Py.is_upper ch = true
                   /\ Py.mem [ch] (extract_attempted_letters pattern attempted_letters)
                      = false).
Proof.
  intros V E Hc. pose proof (solutions_fit _ _ _ _ _ _ V E Hc) as F.
  split; [|split; [|split]].
  - symmetry. apply split_shape. eapply Forall2_impl; [|exact F].
    intros a b. apply cell_fits_space.
  - symmetry. eapply Forall2_length; eassumption.
  - intros i ch Hi U. destruct (Forall2_nth_error _ _ _ F i ch Hi) as [b [Hb Fb]].
    unfold cell_fits in Fb. destruct (Ascii.eqb ch "_") eqn:Eq.
    + apply Ascii.eqb_eq in Eq. subst. discriminate.
    + subst. assumption.
  - intros i Hi. destruct (Forall2_nth_error _ _ _ F i _ Hi) as [b [Hb Fb]].
    unfold cell_fits in Fb. simpl in Fb. destruct Fb as [U M].
    exists b. split; [assumption|]. split; [assumption|].
    unfold forbidden_of in M. rewrite mem_app in M. split_bools. assumption.
Qed.

Lemma solutions_respect_pattern_witness :
  map (@length ascii) (Py.split (lit "CAT")) = map (@length ascii) (Py.split (lit "C_T"))
  /\ length (lit "CAT") = length (lit "C_T")
  /\ (forall i ch, nth_error (lit "C_T") i = Some ch -> Py.is_upper ch = true ->
                   nth_error (lit "CAT") i = Some ch)
  /\ (forall i, nth_error (lit "C_T") i = Some "_"%char ->
        exists ch, nth_error (lit "CAT") i = Some ch
                   /\ Py.is_upper ch = true
                   /\ Py.mem [ch] (extract_attempted_letters (lit "C_T") None) = false).
Proof.
  eapply (solutions_respect_pattern (lit "C_T") None
            (Some [lit "CAT"; lit "COT"; lit "CUT"; lit "DOG"]) None _ (lit "CAT"));
    [reflexivity | vm_compute; reflexivity | vm_compute; auto].
Defined.

Lemma rank_solutions_perm (l : list str) (phrase_set : option (list str)) :
  Permutation (rank_solutions l phrase_set) l.
Proof.
  unfold rank_solutions. rewrite sorted_desc_perm, map_map. simpl.
  rewrite map_id. reflexivity.
Qed.

Lemma rank_solutions_sorted (l : list str) (phrase_set : option (list str)) :
  StronglySorted (fun a b => (score phrase_set b <= score phrase_set a)%Z)
                 (rank_solutions l phrase_set).
Proof.
  unfold rank_solutions.
  set (pairs := Py.sorted_desc snd (map (fun s => (s, score phrase_set s)) l)).
  assert (Q : Forall (fun p => snd p = score phrase_set (fst p)) pairs).
  { apply Forall_forall. intros p Hp.
    apply (Permutation_in _ (sorted_desc_perm _ _)) in Hp.
    apply in_map_iff in Hp. destruct Hp as [s [<- _]]. reflexivity. }
  pose proof (sorted_desc_sorted snd (map (fun s => (s, score phrase_set s)) l)) as S.
  fold pairs in S. clearbody pairs.
  induction S as [|p pairs S IH Hp]; simpl; [constructor|].
  inversion Q as [|p' pairs' Qp Qrest]; subst.
  constructor; [apply IH; assumption|].
  rewrite Forall_forall in *. intros s Hs. apply in_map_iff in Hs.
  destruct Hs as [q [<- Hq]]. rewrite <- Qp, <- (Qrest q Hq). apply Hp, Hq.
Qed.

(** C4: [ranked] is a permutation of [solutions], and the score of each
    entry of [ranked] is at least the score of the next one. *)
Theorem ranked_sorted_permutation (pattern : str)
  (attempted_letters : option (list str)) (words_path phrases_path : file)
  (r : solver_result) :
  wof_solver pattern attempted_letters words_path phrases_path = Ok r ->
  Permutation (ranked r) (solutions r)
  /\ (forall i a b,
        nth_error (ranked r) i = Some a ->
        nth_error (ranked r) (S i) = Some b ->
        (score (Some (load_list phrases_path)) b
         <= score (Some (load_list phrases_path)) a)%Z).
Proof.
  intros E. apply wof_solver_steps in E.
  destruct E as [pm [wb [_ [_ [_ [E _]]]]]]. rewrite E. split.
  - apply rank_solutions_perm.
  - apply (sorted_adjacent _ _ (rank_solutions_sorted _ _)).
Qed.

Lemma ranked_sorted_permutation_witness :
  Permutation [lit "HI THERE"; lit "HI THESE"; lit "HO THERE"; lit "HO THESE"]
              [lit "HI THERE"; lit "HI THESE"; lit "HO THERE"; lit "HO THESE"]
  /\ (forall i a b,
        nth_error [lit "HI THERE"; lit "HI THESE"; lit "HO THERE"; lit "HO THESE"] i
        = Some a ->
        nth_error [lit "HI THERE"; lit "HI THESE"; lit "HO THERE"; lit "HO THESE"] (S i)
        = Some b ->
        (score (Some (load_list (Some [lit "hi there"]))) b
         <= score (Some (load_list (Some [lit "hi there"]))) a)%Z).
Proof.
  apply (ranked_sorted_permutation (lit "H_ THE_E") None
           (Some [lit "HI"; lit "HO"; lit "THERE"; lit "THESE"])
           (Some [lit "hi there"])
           {| solutions := [lit "HI THERE"; lit "HI THESE"; lit "HO THERE"; lit "HO THESE"];
              ranked := [lit "HI THERE"; lit "HI THESE"; lit "HO THERE"; lit "HO THESE"];
              next_letter :=
                recommend_next_letter
                  [lit "HI THERE"; lit "HI THESE"; lit "HO THERE"; lit "HO THESE"]
                  (extract_attempted_letters (lit "H_ THE_E") None) None
                  [lit "HI THERE"] |}).
  vm_compute. reflexivity.
Defined.

(** C10: [solutions] has no duplicate and is in ascending lexicographic
    order; it is the only such list with its elements, whatever the order
    in which the set of candidates is read. *)
Theorem solutions_sorted_without_duplicates (pattern : str)
  (attempted_letters : option (list str)) (words_path phrases_path : file)
  (r : solver_result) :
  wof_solver pattern attempted_letters words_path phrases_path = Ok r ->
  NoDup (solutions r)
  /\ StronglySorted (fun a b => Py.str_leb a b = true) (solutions r)
  /\ (forall l,
        NoDup l ->
        StronglySorted (fun a b => Py.str_leb a b = true) l ->
        (forall c, In c l <-> In c (solutions r)) ->
        l = solutions r).
Proof.
  intros E. apply wof_solver_steps in E.
  destruct E as [pm [wb [_ [_ [E _]]]]]. rewrite E.
  assert (N : NoDup (Py.sorted_str (Py.set_of_list (pm ++ wb)))).
  { eapply Permutation_NoDup; [symmetry; apply sorted_str_perm|].
    apply set_of_list_NoDup. }
  split; [exact N|]. split; [apply sorted_str_sorted|].
  intros l Nl Sl Same.
  apply (sorted_unique (fun a b => Py.str_leb a b = true)); auto.
  - apply str_leb_antisym.
  - apply sorted_str_sorted.
Qed.

Lemma solutions_sorted_without_duplicates_witness :
  NoDup [lit "CAT"; lit "COT"; lit "CUT"]
  /\ StronglySorted (fun a b => Py.str_leb a b = true) [lit "CAT"; lit "COT"; lit "CUT"]
  /\ (forall l,
        NoDup l ->
        StronglySorted (fun a b => Py.str_leb a b = true) l ->
        (forall c, In c l <-> In c [lit "CAT"; lit "COT"; lit "CUT"]) ->
        l = [lit "CAT"; lit "COT"; lit "CUT"]).
Proof.
  apply (solutions_sorted_without_duplicates (lit "C_T") None
           (Some [lit "CUT"; lit "CAT"; lit "COT"; lit "CUT"; lit "DOG"])
           (Some [lit "cot"])
           {| solutions := [lit "CAT"; lit "COT"; lit "CUT"];
              ranked := [lit "COT"; lit "CAT"; lit "CUT"];
              next_letter :=
                recommend_next_letter [lit "COT"; lit "CAT"; lit "CUT"]
                  (extract_attempted_letters (lit "C_T") None) None [lit "COT"] |}).
  vm_compute. reflexivity.
Defined.

(** ** Counters *)

Lemma counter_get_add (c : Py.Counter) (k k' : ascii) (v : Z) :
  Py.counter_get (Py.counter_add c k v) k'
  = if Ascii.eqb k' k then Some (Py.counter_get0 c k + v)%Z
    else Py.counter_get c k'.
Proof.
  unfold Py.counter_get0.
  induction c as [|[k0 v0] c IH]; simpl.
  - destruct (Ascii.eqb k' k); reflexivity.
  - destruct (Ascii.eqb k k0) eqn:E; simpl.
    + apply Ascii.eqb_eq in E. subst k0.
      destruct (Ascii.eqb k' k); reflexivity.
    + rewrite IH. destruct (Ascii.eqb k' k0) eqn:E'; [|reflexivity].
      apply Ascii.eqb_eq in E'. subst k0.
      destruct (Ascii.eqb k' k) eqn:E''; [|reflexivity].
      apply Ascii.eqb_eq in E''. subst k'. rewrite Ascii.eqb_refl in E. discriminate.
Qed.

Lemma counter_get0_add (c : Py.Counter) (k k' : ascii) (v : Z) :
  Py.counter_get0 (Py.counter_add c k v) k'
  = if Ascii.eqb k' k then (Py.counter_get0 c k + v)%Z else Py.counter_get0 c k'.
Proof.
  unfold Py.counter_get0 at 1. rewrite counter_get_add.
  destruct (Ascii.eqb k' k); reflexivity.
Qed.

Lemma counter_has_In (c : Py.Counter) (k : ascii) :
  Py.counter_has c k = true <-> In k (map fst c).
Proof.
  unfold Py.counter_has. induction c as [|[k0 v0] c IH]; simpl.
  - split; [discriminate | contradiction].
  - destruct (Ascii.eqb k k0) eqn:E.
    + apply Ascii.eqb_eq in E. subst. tauto.
    + rewrite IH. split; [auto|]. intros [H|H]; [|assumption].
      subst. rewrite Ascii.eqb_refl in E. discriminate.
Qed.

Lemma counter_keys_add (c : Py.Counter) (k : ascii) (v : Z) :
  map fst (Py.counter_add c k v)
  = if Py.counter_has c k then map fst c else map fst c ++ [k].
Proof.
  unfold Py.counter_has. induction c as [|[k0 v0] c IH]; simpl; [reflexivity|].
  destruct (Ascii.eqb k k0) eqn:E; simpl; [reflexivity|].
  rewrite IH. destruct (Py.counter_get c k); reflexivity.
Qed.

Lemma counter_get_In (c : Py.Counter) (k : ascii) (v : Z) :
  NoDup (map fst c) -> (In (k, v) c <-> Py.counter_get c k = Some v).
Proof.
  induction c as [|[k0 v0] c IH]; simpl; intros N.
  - split; [contradiction | discriminate].
  - inversion N as [|x l Hx N']; subst. destruct (Ascii.eqb k k0) eqn:E.
    + apply Ascii.eqb_eq in E. subst k0. split.
      * intros [H|H]; [inversion H; reflexivity|].
        exfalso. apply Hx. apply (in_map fst) in H. exact H.
      * intros H. inversion H. auto.
    + rewrite <- (IH N'). split; [|auto]. intros [H|H]; [|assumption].
      inversion H; subst. rewrite Ascii.eqb_refl in E. discriminate.
Qed.

Lemma keys_ok_add (attempted : list str) (c : Py.Counter) (k : ascii) (v : Z) :
  Py.is_upper k = true -> Py.mem [k] attempted = false ->
  keys_ok attempted c -> keys_ok attempted (Py.counter_add c k v).
Proof.
  intros U M [N F]. unfold keys_ok. rewrite counter_keys_add.
  destruct (Py.counter_has c k) eqn:H; [split; assumption|]. split.
  - apply NoDup_app; [assumption | repeat constructor; auto |]. 
    intros x Hx [<- | []]. apply counter_has_In in Hx. congruence.
  - apply Forall_app. split; [assumption | repeat constructor; assumption].
Qed.

Lemma count_solution_keys (attempted phrase_set : list str) (c : Py.Counter)
  (sw : str * Z) :
  keys_ok attempted c -> keys_ok attempted (count_solution attempted phrase_set c sw).
Proof.
  destruct sw as [s w]. unfold count_solution.
  generalize (Py.mem s phrase_set) as m. intros m. revert c.
  induction s as [|ch s IH]; intros c K; simpl; [assumption|].
  apply IH. destruct (Py.is_upper ch) eqn:U; [|assumption].
  destruct (Py.mem [ch] attempted) eqn:M; [assumption|]. simpl.
  destruct m; repeat apply keys_ok_add; assumption.
Qed.

Lemma count_solutions_keys (attempted phrase_set : list str)
  (l : list (str * Z)) (c : Py.Counter) :
  keys_ok attempted c ->
  keys_ok attempted (fold_left (count_solution attempted phrase_set) l c).
Proof.
  revert c; induction l as [|sw l IH]; intros c K; simpl; [assumption|].
  apply IH, count_solution_keys, K.
Qed.

Lemma counter_has_get (c : Py.Counter) (k : ascii) :
  Py.counter_has c k = false <-> Py.counter_get c k = None.
Proof.
  unfold Py.counter_has. destruct (Py.counter_get c k); split; congruence.
Qed.

Lemma penalize_get (attempted : list str) (letters : str) (c : Py.Counter) (k : ascii) :
  Py.counter_get (fold_left (penalize_step attempted) letters c) k
  = match Py.counter_get c k with
    | Some v => Some v
    | None =>
        if existsb (Ascii.eqb k) letters && negb (Py.mem [k] attempted)
        then Some (-1)%Z else None
    end.
Proof.
  revert c; induction letters as [|l letters IH]; intros c; simpl.
  - destruct (Py.counter_get c k); reflexivity.
  - rewrite IH. unfold penalize_step.
    destruct (Py.mem [l] attempted) eqn:M; simpl.
    + destruct (Py.counter_get c k); [reflexivity|].
      destruct (Ascii.eqb k l) eqn:E; [|reflexivity].
      apply Ascii.eqb_eq in E. subst. rewrite M, andb_false_r. reflexivity.
    + destruct (Py.counter_has c l) eqn:H; simpl.
      * destruct (Py.counter_get c k) eqn:G; [reflexivity|].
        destruct (Ascii.eqb k l) eqn:E; [|reflexivity].
        apply Ascii.eqb_eq in E. subst. apply counter_has_get in G. congruence.
      * rewrite counter_get_add. destruct (Ascii.eqb k l) eqn:E; simpl.
        -- apply Ascii.eqb_eq in E. subst.
           apply counter_has_get in H. unfold Py.counter_get0. rewrite H, M.
           reflexivity.
        -- reflexivity.
Qed.

Lemma penalize_NoDup (attempted : list str) (letters : str) (c : Py.Counter) :
  NoDup (map fst c) ->
  NoDup (map fst (fold_left (penalize_step attempted) letters c)).
Proof.
  revert c; induction letters as [|l letters IH]; intros c N; simpl; [assumption|].
  apply IH. unfold penalize_step.
  destruct (negb (Py.mem [l] attempted) && negb (Py.counter_has c l)) eqn:E;
    [|assumption].
  split_bools. rewrite counter_keys_add, H0.
  apply NoDup_app; [assumption | repeat constructor; auto |].
  intros x Hx [<- | []]. apply counter_has_In in Hx. congruence.
Qed.

Lemma penalize_keys (attempted : list str) (letters : str) (c : Py.Counter) (k : ascii) :
  In k (map fst (fold_left (penalize_step attempted) letters c))
  <-> In k (map fst c) \/ (In k letters /\ Py.mem [k] attempted = false).
Proof.
  rewrite <- !counter_has_In. unfold Py.counter_has at 1. rewrite penalize_get.
  unfold Py.counter_has. destruct (Py.counter_get c k); [tauto|].
  destruct (existsb (Ascii.eqb k) letters) eqn:E; simpl.
  - apply existsb_exists in E. destruct E as [x [Hx E]].
    apply Ascii.eqb_eq in E. subst x.
    destruct (Py.mem [k] attempted); simpl; split; auto;
      intros [H | [_ H]]; discriminate.
  - split; [discriminate|]. intros [H | [H _]]; [discriminate|].
    assert (T : existsb (Ascii.eqb k) letters = true).
    { apply existsb_exists. exists k. split; [assumption | apply Ascii.eqb_refl]. }
    congruence.
Qed.

Lemma counter_add_new (c : Py.Counter) (k : ascii) (v : Z) :
  Py.counter_has c k = false -> Py.counter_add c k v = c ++ [(k, v)].
Proof.
  unfold Py.counter_has. induction c as [|[k0 v0] c IH]; simpl; [reflexivity|].
  destruct (Ascii.eqb k k0); [discriminate|]. intros H. rewrite IH by assumption.
  reflexivity.
Qed.

Lemma penalize_fresh (attempted : list str) (letters done : str) :
  NoDup (done ++ letters) ->
  fold_left (penalize_step attempted) letters (map (fun ch => (ch, (-1)%Z)) done)
  = map (fun ch => (ch, (-1)%Z))
        (done ++ filter (fun ch => negb (Py.mem [ch] attempted)) letters).
Proof.
  revert done; induction letters as [|l letters IH]; intros done N; simpl.
  - rewrite app_nil_r. reflexivity.
  - unfold penalize_step at 2. destruct (Py.mem [l] attempted) eqn:M; simpl.
    + apply IH. eapply NoDup_remove_1; eassumption.
    + assert (H : Py.counter_has (map (fun ch => (ch, (-1)%Z)) done) l = false).
      { destruct (Py.counter_has _ l) eqn:H; [|reflexivity].
        apply counter_has_In in H. rewrite map_map, map_id in H.
        apply NoDup_remove_2 in N. exfalso. apply N. apply in_or_app. auto. }
      rewrite H. simpl. rewrite counter_add_new by assumption.
      change [(l, (-1)%Z)] with (map (fun ch => (ch, (-1)%Z)) [l]).
      rewrite <- map_app, IH.
      * rewrite <- app_assoc. reflexivity.
      * rewrite <- app_assoc. exact N.
Qed.

Lemma alphabet_NoDup : NoDup alphabet.
Proof.
  unfold alphabet, lit. cbn [list_ascii_of_string].
  repeat (constructor;
          [intros H; simpl in H;
           repeat (destruct H as [H|H]; [discriminate H|]); exact H|]).
  constructor.
Qed.

Lemma sort_constant {A : Type} (key : A -> Z) (l : list A) (v : Z) :
  Forall (fun x => key x = v) l -> Py.sorted_desc key l = l.
Proof.
  unfold Py.sorted_desc. induction 1 as [|x l Hx Hl IH]; simpl; [reflexivity|].
  rewrite IH. destruct Hl as [|y l Hy Hl]; simpl; [reflexivity|].
  rewrite Hx, Hy, Z.leb_refl. reflexivity.
Qed.

Lemma recommend_nothing (attempted phrase_set : list str) :
  recommend_next_letter [] attempted None phrase_set = penalties attempted.
Proof.
  unfold recommend_next_letter, penalties. cbn [length repeat combine fold_left].
  change (penalize attempted [])
    with (fold_left (penalize_step attempted) alphabet (map (fun ch => (ch, (-1)%Z)) [])).
  rewrite penalize_fresh by apply alphabet_NoDup. cbn [app].
  unfold Py.most_common. apply sort_constant with (v := (-1)%Z).
  apply Forall_forall. intros p Hp. apply in_map_iff in Hp.
  destruct Hp as [ch [<- _]]. reflexivity.
Qed.

(** ** The recommender *)

Lemma extract_upper (pattern : str) (attempted : option (list str)) :
  extract_attempted_letters (Py.upper pattern) attempted
  = extract_attempted_letters pattern attempted.
Proof. unfold extract_attempted_letters. rewrite upper_idem. reflexivity. Qed.

Lemma penalize_fold (attempted : list str) (c : Py.Counter) :
  penalize attempted c = fold_left (penalize_step attempted) alphabet c.
Proof. reflexivity. Qed.

Lemma most_common_perm (c : Py.Counter) : Permutation (Py.most_common c) c.
Proof. apply sorted_desc_perm. Qed.

Lemma recommend_keys (solutions : list str) (attempted : list str)
  (weights : option (list Z)) (phrase_set : list str) :
  NoDup (map fst (recommend_next_letter solutions attempted weights phrase_set))
  /\ forall ch,
       In ch (map fst (recommend_next_letter solutions attempted weights phrase_set))
       <-> Py.is_upper ch = true /\ Py.mem [ch] attempted = false.
Proof.
  unfold recommend_next_letter.
  set (ws := match weights with None => _ | Some ws => ws end).
  pose proof (count_solutions_keys attempted phrase_set (combine solutions ws) [])
    as K.
  set (c := fold_left (count_solution attempted phrase_set)
                      (combine solutions ws) []) in *.
  destruct K as [N F]; [split; constructor|].
  rewrite penalize_fold. split.
  - eapply Permutation_NoDup.
    + apply Permutation_map. symmetry. apply most_common_perm.
    + apply penalize_NoDup. assumption.
  - intros ch.
    assert (P : In ch (map fst (Py.most_common
                                  (fold_left (penalize_step attempted) alphabet c)))
                <-> In ch (map fst (fold_left (penalize_step attempted) alphabet c))).
    { split; apply Permutation_in; apply Permutation_map;
        [|symmetry]; apply most_common_perm. }
    rewrite P, penalize_keys. rewrite Forall_forall in F. split.
    + intros [H | [H M]]; [apply F; assumption|].
      split; [apply alphabet_upper|]; assumption.
    + intros [U M]. right. split; [apply upper_in_alphabet|]; assumption.
Qed.

Lemma recommend_sorted (solutions : list str) (attempted : list str)
  (weights : option (list Z)) (phrase_set : list str) :
  StronglySorted (fun a b => (snd b <= snd a)%Z)
                 (recommend_next_letter solutions attempted weights phrase_set).
Proof. apply sorted_desc_sorted. Qed.

Lemma unattempted_letters (attempted : list str) (ch : ascii) :
  In ch (filter (fun ch => negb (Py.mem [ch] attempted)) alphabet)
  <-> Py.is_upper ch = true /\ Py.mem [ch] attempted = false.
Proof.
  rewrite filter_In, negb_true_iff. split; intros [H M]; split; auto.
  - apply alphabet_upper; assumption.
  - apply upper_in_alphabet; assumption.
Qed.

Lemma recommend_covers (solutions : list str) (attempted : list str)
  (weights : option (list Z)) (phrase_set : list str) :
  let out := recommend_next_letter solutions attempted weights phrase_set in
  Permutation (map fst out) (filter (fun ch => negb (Py.mem [ch] attempted)) alphabet)
  /\ NoDup (map fst out)
  /\ StronglySorted (fun a b => (snd b <= snd a)%Z) out
  /\ (forall ch, Py.mem [ch] attempted = true -> ~ In ch (map fst out)).
Proof.
  intros out. destruct (recommend_keys solutions attempted weights phrase_set) as [N K].
  fold out in N, K. split; [|split; [|split]].
  - apply NoDup_Permutation; [assumption | apply NoDup_filter, alphabet_NoDup |].
    intros ch. rewrite K, unattempted_letters. reflexivity.
  - assumption.
  - apply recommend_sorted.
  - intros ch M H. destruct (proj1 (K ch) H) as [_ H']. congruence.
Qed.

(** C5: the recommendation lists exactly the letters of the alphabet that
    were not attempted, each once, by descending weight, and no attempted
    letter; this holds for [recommend_next_letter] on any arguments and
    for the [next_letter] field of [wof_solver]. *)
Theorem next_letter_covers_unattempted
  (candidates attempted : list str) (weights : option (list Z)) (phrase_set : list str)
  (pattern : str) (attempted_letters : option (list str))
  (words_path phrases_path : file) (r : solver_result) :
  (let out := recommend_next_letter candidates attempted weights phrase_set in
   Permutation (map fst out) (filter (fun ch => negb (Py.mem [ch] attempted)) alphabet)
   /\ NoDup (map fst out)
   /\ StronglySorted (fun a b => (snd b <= snd a)%Z) out
   /\ (forall ch, Py.mem [ch] attempted = true -> ~ In ch (map fst out)))
  /\ (wof_solver pattern attempted_letters words_path phrases_path = Ok r ->
      let tried := extract_attempted_letters pattern attempted_letters in
      Permutation (map fst (next_letter r))
                  (filter (fun ch => negb (Py.mem [ch] tried)) alphabet)
      /\ NoDup (map fst (next_letter r))
      /\ StronglySorted (fun a b => (snd b <= snd a)%Z) (next_letter r)
      /\ (forall ch, Py.mem [ch] tried = true -> ~ In ch (map fst (next_letter r)))).
Proof.
  split; [apply recommend_covers|].
  intros E. apply wof_solver_steps in E.
  destruct E as [pm [wb [_ [_ [_ [_ E]]]]]]. rewrite E, extract_upper.
  apply recommend_covers.
Qed.

Lemma next_letter_covers_unattempted_witness :
  let r := {| solutions := [lit "CAT"; lit "COT"; lit "CUT"];
              ranked := [lit "CAT"; lit "COT"; lit "CUT"];
              next_letter :=
                recommend_next_letter [lit "CAT"; lit "COT"; lit "CUT"]
                  (extract_attempted_letters (lit "C_T") None) None [] |} in
  let tried := extract_attempted_letters (lit "C_T") None in
  Permutation (map fst (next_letter r))
              (filter (fun ch => negb (Py.mem [ch] tried)) alphabet)
  /\ NoDup (map fst (next_letter r))
  /\ StronglySorted (fun a b => (snd b <= snd a)%Z) (next_letter r)
  /\ (forall ch, Py.mem [ch] tried = true -> ~ In ch (map fst (next_letter r))).
Proof.
  intros r.
  apply (proj2 (next_letter_covers_unattempted [] [] None [] (lit "C_T") None
                  (Some [lit "CAT"; lit "COT"; lit "CUT"; lit "DOG"]) None r)).
  vm_compute. reflexivity.
Defined.

Lemma default_weights (l : list str) :
  combine l (repeat 1%Z (length l)) = map (fun s => (s, 1%Z)) l.
Proof. induction l as [|s l IH]; simpl; [|rewrite IH]; reflexivity. Qed.

Lemma occurrences_cons (ch x : ascii) (t : str) :
  occurrences ch (x :: t)
  = ((if Ascii.eqb ch x then 1 else 0) + occurrences ch t)%Z.
Proof.
  unfold occurrences. simpl. destruct (ascii_dec x ch) as [->|N].
  - rewrite Ascii.eqb_refl. lia.
  - destruct (Ascii.eqb ch x) eqn:E; [|lia].
    apply Ascii.eqb_eq in E. congruence.
Qed.

Lemma occurrences_nonneg (ch : ascii) (t : str) : (0 <= occurrences ch t)%Z.
Proof. unfold occurrences. lia. Qed.

(** Value of a letter after the loop over the characters [t] of one
    candidate; [m] says whether the candidate is in the phrase set. *)
Lemma count_chars_get0 (attempted : list str) (m : bool) (w : Z) (ch : ascii)
  (t : str) (c : Py.Counter) :
  Py.is_upper ch = true -> Py.mem [ch] attempted = false ->
  Py.counter_get0
    (fold_left
       (fun counts x =>
          if Py.is_upper x && negb (Py.mem [x] attempted) then
            let counts := Py.counter_add counts x w in
            if m then Py.counter_add counts x (w * 10)%Z else counts
          else counts)
       t c) ch
  = (Py.counter_get0 c ch + occurrences ch t * (if m then w + w * 10 else w))%Z.
Proof.
  intros U M. revert c. induction t as [|x t IH]; intros c.
  - simpl. unfold occurrences. simpl. lia.
  - cbn [fold_left]. rewrite IH, occurrences_cons. clear IH.
    destruct (Ascii.eqb ch x) eqn:E.
    + apply Ascii.eqb_eq in E. subst x. rewrite U, M. cbn [andb negb].
      destruct m; rewrite !counter_get0_add, Ascii.eqb_refl; ring.
    + destruct (Py.is_upper x && negb (Py.mem [x] attempted)); [|ring].
      destruct m; rewrite !counter_get0_add, E; ring.
Qed.

Lemma count_solutions_get0 (attempted phrase_set : list str) (ch : ascii)
  (l : list str) (c : Py.Counter) :
  Py.is_upper ch = true -> Py.mem [ch] attempted = false ->
  Py.counter_get0
    (fold_left (count_solution attempted phrase_set) (map (fun s => (s, 1%Z)) l) c) ch
  = (Py.counter_get0 c ch + credit phrase_set ch l)%Z.
Proof.
  intros U M. revert c. induction l as [|s l IH]; intros c.
  - unfold credit. cbn [map fold_left fold_right]. ring.
  - cbn [map fold_left]. rewrite IH. unfold count_solution. cbv iota beta.
    rewrite count_chars_get0 by assumption.
    unfold credit. cbn [map fold_right].
    destruct (Py.mem s phrase_set); ring.
Qed.

Lemma all_positive_add (c : Py.Counter) (k : ascii) (v : Z) :
  (0 < v)%Z -> all_positive c -> all_positive (Py.counter_add c k v).
Proof.
  intros Hv. induction 1 as [|[k0 v0] c H0 Hc IH]; simpl.
  - repeat constructor. assumption.
  - destruct (Ascii.eqb k k0); constructor; simpl in *; try assumption. lia.
Qed.

Lemma all_positive_count (attempted phrase_set : list str) (l : list str)
  (c : Py.Counter) :
  all_positive c ->
  all_positive
    (fold_left (count_solution attempted phrase_set) (map (fun s => (s, 1%Z)) l) c).
Proof.
  revert c; induction l as [|s l IH]; intros c P; [assumption|].
  cbn [map fold_left]. apply IH. unfold count_solution.
  generalize (Py.mem s phrase_set) as m. intros m. revert c P.
  induction s as [|x s IHs]; intros c P; [assumption|].
  cbn [fold_left]. apply IHs.
  destruct (Py.is_upper x && negb (Py.mem [x] attempted)); [|assumption].
  destruct m; repeat apply all_positive_add; assumption || lia.
Qed.

Lemma all_positive_get (c : Py.Counter) (k : ascii) (v : Z) :
  all_positive c -> Py.counter_get c k = Some v -> (0 < v)%Z.
Proof.
  induction 1 as [|[k0 v0] c H0 Hc IH]; simpl; [discriminate|].
  destruct (Ascii.eqb k k0); [|assumption]. intros E. inversion E; subst. assumption.
Qed.

Lemma credit_nonneg (phrase_set : list str) (ch : ascii) (l : list str) :
  (0 <= credit phrase_set ch l)%Z.
Proof.
  unfold credit. induction l as [|s l IH]; cbn [map fold_right]; [lia|].
  pose proof (occurrences_nonneg ch s). destruct (Py.mem s phrase_set); lia.
Qed.

(** C7: with the default weights, a letter that was not attempted ends
    with 1 for each of its occurrences in a candidate plus 10 more for
    each occurrence in a candidate of the phrase set (11 together), and
    with -1 when that total is zero. *)
Theorem default_weight_totals (candidates attempted phrase_set : list str)
  (ch : ascii) (v : Z) :
  Py.is_upper ch = true ->
  Py.mem [ch] attempted = false ->
  In (ch, v) (recommend_next_letter candidates attempted None phrase_set)
  <-> v = (if (credit phrase_set ch candidates =? 0)%Z then (-1)%Z
           else credit phrase_set ch candidates).
Proof.
  intros U M.
  assert (P : In (ch, v) (recommend_next_letter candidates attempted None phrase_set)
              <-> Py.counter_get
                    (penalize attempted
                       (fold_left (count_solution attempted phrase_set)
                          (map (fun s => (s, 1%Z)) candidates) [])) ch = Some v).
  { unfold recommend_next_letter. rewrite default_weights.
    rewrite <- counter_get_In.
    - split; apply Permutation_in; [|symmetry]; apply most_common_perm.
    - rewrite penalize_fold. apply penalize_NoDup.
      apply (count_solutions_keys attempted phrase_set _ []). split; constructor. }
  rewrite P, penalize_fold, penalize_get. clear P.
  pose proof (count_solutions_get0 attempted phrase_set ch candidates [] U M) as G.
  pose proof (all_positive_count attempted phrase_set candidates []
                (Forall_nil _)) as Pos.
  pose proof (credit_nonneg phrase_set ch candidates) as Nn.
  unfold Py.counter_get0 at 1 in G.
  destruct (Py.counter_get _ ch) as [v0|] eqn:E.
  - apply (all_positive_get _ _ _ Pos) in E.
    change (Py.counter_get0 [] ch) with 0%Z in G.
    destruct (Z.eqb_spec (credit phrase_set ch candidates) 0); [lia|].
    split; intros H; [inversion H | subst v; f_equal]; lia.
  - change (Py.counter_get0 [] ch) with 0%Z in G.
    assert (A : existsb (Ascii.eqb ch) alphabet = true).
    { apply existsb_exists. exists ch.
      split; [apply upper_in_alphabet; assumption | apply Ascii.eqb_refl]. }
    rewrite A, M. cbn [andb negb].
    destruct (Z.eqb_spec (credit phrase_set ch candidates) 0); [|lia].
    split; intros H; [inversion H | subst v]; reflexivity.
Qed.

Lemma default_weight_totals_witness :
  In ("E"%char, 24%Z)
     (recommend_next_letter [lit "HI THERE"; lit "HI THESE"] [lit "H"; lit "T"] None
        [lit "HI THERE"]).
Proof.
  apply (default_weight_totals [lit "HI THERE"; lit "HI THESE"] [lit "H"; lit "T"]
           [lit "HI THERE"] "E" 24); reflexivity.
Defined.

(** ** The ranker *)

Lemma counter_of_get0 (s : str) (c : Py.Counter) (ch : ascii) :
  Py.counter_get0 (fold_left (fun c x => Py.counter_add c x 1%Z) s c) ch
  = (Py.counter_get0 c ch + occurrences ch s)%Z.
Proof.
  revert c; induction s as [|x s IH]; intros c.
  - unfold occurrences. cbn [fold_left count_occ Z.of_nat]. ring.
  - cbn [fold_left]. rewrite IH, counter_get0_add, occurrences_cons.
    destruct (Ascii.eqb ch x) eqn:E; [|ring].
    apply Ascii.eqb_eq in E. subst x. ring.
Qed.

Lemma freq_counts (ch : ascii) :
  Py.counter_get0 freq ch = occurrences ch (lit "ETAOINSHRDLU").
Proof.
  unfold freq, Py.counter_of. rewrite counter_of_get0. reflexivity.
Qed.

Lemma etaoin_once (ch : ascii) :
  occurrences ch (lit "ETAOINSHRDLU") = if etaoin ch then 1%Z else 0%Z.
Proof. by_cases ch. Qed.

Lemma letter_sum (s : str) :
  fold_right Z.add 0%Z (map (Py.counter_get0 freq) s)
  = Z.of_nat (length (filter etaoin s)).
Proof.
  induction s as [|ch s IH]; [reflexivity|].
  cbn [map fold_right filter]. rewrite IH, freq_counts, etaoin_once.
  destruct (etaoin ch); cbn [length]; lia.
Qed.

(** C6: the score of a candidate is the number of its characters among
    E, T, A, O, I, N, S, H, R, D, L and U, each counted with its number of
    occurrences in the reference string, which is 1, plus 100 exactly when
    the candidate is in the phrase set. *)
Theorem score_formula (phrase_set : option (list str)) (s : str) :
  score phrase_set s
  = (Z.of_nat (length (filter etaoin s))
     + (if match phrase_set with
           | Some set => Py.mem s set
           | None => false
           end
        then 100 else 0))%Z
  /\ (forall ch,
        Py.counter_get0 freq ch = occurrences ch (lit "ETAOINSHRDLU")
        /\ Py.counter_get0 freq ch = if etaoin ch then 1%Z else 0%Z).
Proof.
  split.
  - unfold score. rewrite letter_sum.
    destruct phrase_set as [[|p ps]|].
    + change (Py.mem s []) with false. ring.
    + destruct (Py.mem s (p :: ps)); ring.
    + ring.
  - intros ch. rewrite freq_counts. split; [reflexivity | apply etaoin_once].
Qed.

(** ** The facade *)

Lemma wof_solver_run (pattern : str) (attempted_letters : option (list str))
  (words_path phrases_path : file) (from_phrases word_based : list str) :
  phrase_matches (Py.upper pattern) (load_list phrases_path)
    (forbidden_of (Py.upper pattern) attempted_letters) = Ok from_phrases ->
  solve_pattern (Py.upper pattern) (load_list words_path)
    (forbidden_of (Py.upper pattern) attempted_letters) = Ok word_based ->
  wof_solver pattern attempted_letters words_path phrases_path
  = Ok {| solutions := Py.sorted_str (Py.set_of_list (from_phrases ++ word_based));
          ranked :=
            rank_solutions (Py.sorted_str (Py.set_of_list (from_phrases ++ word_based)))
                           (Some (load_list phrases_path));
          next_letter :=
            recommend_next_letter
              (rank_solutions
                 (Py.sorted_str (Py.set_of_list (from_phrases ++ word_based)))
                 (Some (load_list phrases_path)))
              (extract_attempted_letters pattern attempted_letters)
              None (load_list phrases_path) |}.
Proof.
  unfold wof_solver, forbidden_of. cbv zeta. intros -> ->. cbn [bind].
  rewrite extract_upper.
  destruct (is_nil _) eqn:E; [|reflexivity].
  apply is_nil_true in E. rewrite E. reflexivity.
Qed.

Lemma candidate_lists_blocked (before : list str) (part : str) (after : list str)
  (words forbidden : list str) :
  Forall (fun p => exists ms, match_words words p forbidden = Ok ms) before ->
  match_words words part forbidden = Ok [] ->
  candidate_lists (before ++ part :: after) words forbidden = Ok None.
Proof.
  intros H E. induction H as [|p before [ms Hp] _ IH]; simpl.
  - rewrite E. reflexivity.
  - rewrite Hp. cbn [bind]. destruct (is_nil ms); [reflexivity|].
    rewrite IH. reflexivity.
Qed.

Lemma sorted_set_In (l : list str) (c : str) :
  In c (Py.sorted_str (Py.set_of_list l)) <-> In c l.
Proof.
  rewrite <- (set_of_list_In c l). split; apply Permutation_in;
    [|symmetry]; apply sorted_str_perm.
Qed.

Lemma candidate_lists_some (parts : list str) (words forbidden : list str)
  (lists : list (list str)) (part : str) :
  candidate_lists parts words forbidden = Ok (Some lists) ->
  In part parts ->
  exists ms, match_words words part forbidden = Ok ms /\ ms <> [].
Proof.
  revert lists; induction parts as [|p parts IH]; intros lists E H; [contradiction|].
  simpl in E. destruct (match_words words p forbidden) as [ms| |] eqn:M;
    cbn [bind] in E; try discriminate.
  destruct ms as [|m ms]; [discriminate|]. cbn [is_nil] in E.
  destruct (candidate_lists parts words forbidden) as [[ls|]| |] eqn:L;
    cbn [bind option_map] in E; try discriminate.
  destruct H as [<- | H].
  - exists (m :: ms). split; [assumption | discriminate].
  - eapply IH; [reflexivity | assumption].
Qed.

Lemma match_words_total (words : list str) (part : str) (forbidden : list str) :
  Forall (fun c => special c = false) part ->
  exists ms, match_words words part forbidden = Ok ms.
Proof. intros H. rewrite match_words_plain by assumption. eauto. Qed.

Lemma solve_pattern_blocked (pattern : str) (words forbidden : list str) (part : str) :
  Forall (fun c => special c = false) pattern ->
  In part (Py.split pattern) ->
  match_words words part forbidden = Ok [] ->
  solve_pattern pattern words forbidden = Ok [].
Proof.
  intros Plain H E. apply in_split in H. destruct H as [before [after S]].
  unfold solve_pattern. rewrite S, candidate_lists_blocked; [reflexivity | | assumption].
  pose proof (split_Forall _ _ Plain) as F. rewrite S in F.
  apply Forall_app in F. destruct F as [F _].
  eapply Forall_impl; [|exact F]. intros p. apply match_words_total.
Qed.

(** C8: when a segment of the pattern matches no word, [solve_pattern]
    yields no candidate at all, and returns the empty list when the
    pattern is free of characters that [re] reads as operators; in
    [wof_solver] the solutions are then the phrases that [phrase_matches]
    returns, sorted and without duplicates. *)
Theorem empty_segment_blocks_word_path (pattern : str) (words forbidden : list str)
  (part : str) :
  In part (Py.split pattern) ->
  match_words words part forbidden = Ok [] ->
  (forall word_based,
      solve_pattern pattern words forbidden = Ok word_based -> word_based = [])
  /\ (Forall (fun c => special c = false) pattern ->
      solve_pattern pattern words forbidden = Ok [])
  /\ (forall raw attempted_letters words_path phrases_path,
        pattern = Py.upper raw ->
        words = load_list words_path ->
        forbidden = forbidden_of pattern attempted_letters ->
        (forall r,
            wof_solver raw attempted_letters words_path phrases_path = Ok r ->
            exists from_phrases,
              phrase_matches pattern (load_list phrases_path) forbidden
              = Ok from_phrases
              /\ solutions r = Py.sorted_str (Py.set_of_list from_phrases)
              /\ (forall c, In c (solutions r) <-> In c from_phrases))
        /\ (Forall (fun c => special c = false) pattern ->
            exists r, wof_solver raw attempted_letters words_path phrases_path = Ok r)).
Proof.
  intros H E.
  assert (A : forall wb, solve_pattern pattern words forbidden = Ok wb -> wb = []).
  { intros wb W. unfold solve_pattern in W.
    destruct (candidate_lists _ _ _) as [[lists|]| |] eqn:L; cbn [bind] in W;
      try discriminate; [|inversion W; reflexivity].
    destruct (candidate_lists_some _ _ _ _ _ L H) as [ms [M N]]. congruence. }
  split; [exact A|]. split; [intros Plain; eapply solve_pattern_blocked; eassumption|].
  intros raw att wf pf -> -> ->. split.
  - intros r R. apply wof_solver_steps in R.
    destruct R as [pm [wb [P [W [S _]]]]]. apply A in W. subst wb.
    rewrite app_nil_r in S. exists pm. split; [assumption|]. split; [assumption|].
    rewrite S. apply sorted_set_In.
  - intros Plain. pose proof (solve_pattern_blocked _ _ _ _ Plain H E) as W.
    pose proof (phrase_matches_plain (Py.upper raw) (load_list pf)
                  (forbidden_of (Py.upper raw) att) Plain) as P.
    eexists. apply (wof_solver_run raw att wf pf _ _ P W).
Qed.

Lemma empty_segment_blocks_word_path_witness :
  solve_pattern (lit "HI TH___") [lit "HI"; lit "HO"; lit "THE"] [lit "H"; lit "I"; lit "T"]
  = Ok [].
Proof.
  apply (empty_segment_blocks_word_path (lit "HI TH___") [lit "HI"; lit "HO"; lit "THE"]
           [lit "H"; lit "I"; lit "T"] (lit "TH___")).
  - vm_compute. auto.
  - vm_compute. reflexivity.
  - vm_compute. repeat constructor.
Defined.

Lemma candidate_lists_total (parts : list str) (words forbidden : list str) :
  Forall (Forall (fun c => special c = false)) parts ->
  exists lists, candidate_lists parts words forbidden = Ok lists.
Proof.
  induction 1 as [|part parts Hp _ [lists IH]]; simpl; [eauto|].
  rewrite match_words_plain by assumption. cbn [bind].
  destruct (is_nil _); [eauto|]. rewrite IH. cbn [bind]. eauto.
Qed.

(** On a pattern without characters that [re] reads as operators, and so
    on every valid pattern, [wof_solver] returns a result. *)
Lemma wof_solver_returns (pattern : str) (attempted_letters : option (list str))
  (words_path phrases_path : file) :
  Forall (fun c => special c = false) pattern ->
  exists r, wof_solver pattern attempted_letters words_path phrases_path = Ok r.
Proof.
  intros Plain.
  assert (U : Forall (fun c => special c = false) (Py.upper pattern)).
  { unfold Py.upper. apply Forall_map.
    eapply Forall_impl; [|exact Plain]. apply special_upper_char. }
  destruct (candidate_lists_total (Py.split (Py.upper pattern))
              (load_list words_path)
              (forbidden_of (Py.upper pattern) attempted_letters)
              (split_Forall _ _ U)) as [lists L].
  assert (W : exists wb, solve_pattern (Py.upper pattern) (load_list words_path)
                           (forbidden_of (Py.upper pattern) attempted_letters)
                         = Ok wb).
  { unfold solve_pattern. rewrite L. cbn [bind]. destruct lists; eauto. }
  destruct W as [wb W].
  eexists. eapply wof_solver_run; [|exact W].
  apply phrase_matches_plain. assumption.
Qed.

(** ** Claims that the code does not meet *)














(** C2, at the failing input: with the forbidden letter X, the regular
    expression of the pattern [_] is [^[A-Z^X]$]; its character set lists
    the caret and X besides the upper-case letters, so that the matcher
    accepts X, which is forbidden, and the caret, which is no letter. *)
Theorem forbidden_letter_accepted :
  let rx := [Re.Bol;
             Re.CharSet false [Re.SRange "A" "Z"; Re.SChar "^"; Re.SChar "X"];
             Re.Eol] in
  pattern_to_regex (lit "_") (Some [lit "X"]) = lit "^[A-Z^X]$"
  /\ Re.compile (pattern_to_regex (lit "_") (Some [lit "X"])) = Ok rx
  /\ Re.rmatch rx (lit "X") = true
  /\ Py.mem (lit "X") [lit "X"] = true
  /\ Re.rmatch rx (lit "^") = true
  /\ Py.is_upper "^" = false.
Proof. repeat split; reflexivity. Qed.

(** C3, at the failing inputs: a dot in the pattern matches any letter,
    not the dot alone, and an opening parenthesis makes [re.compile]
    raise [re.error], in [phrase_matches] and so in [wof_solver]. *)
Theorem special_characters_are_operators :
  pattern_to_regex (lit "C.T") None = lit "^C.T$"
  /\ phrase_matches (lit "C.T") [lit "CAT"] [] = Ok [lit "CAT"]
  /\ wof_solver (lit "C.T") None None (Some [lit "CAT"])
     = Ok {| solutions := [lit "CAT"];
             ranked := [lit "CAT"];
             next_letter :=
               recommend_next_letter [lit "CAT"]
                 (extract_attempted_letters (lit "C.T") None) None [lit "CAT"] |}
  /\ pattern_to_regex (lit "(") None = lit "^($"
  /\ Re.compile (pattern_to_regex (lit "(") None) = ReError
  /\ phrase_matches (lit "(") [] [] = ReError
  /\ wof_solver (lit "(") None None None = ReError.
Proof. repeat split; vm_compute; reflexivity. Qed.

(** * Further properties of [wof_solver3.py] *)

(** ** White space at the ends *)

Lemma lstrip_spec (s : str) :
  exists a, s = a ++ Py.lstrip s /\ Forall (fun c => Py.is_space c = true) a.
Proof.
  induction s as [|c s [a [E F]]]; simpl.
  - exists []. split; [reflexivity | constructor].
  - destruct (Py.is_space c) eqn:S.
    + exists (c :: a). split; [simpl; congruence | constructor; assumption].
    + exists []. split; [reflexivity | constructor].
Qed.

Lemma lstrip_fixed (c : ascii) (t : str) :
  Py.is_space c = false -> Py.lstrip (c :: t) = c :: t.
Proof. intros H. simpl. rewrite H. reflexivity. Qed.

Lemma lstrip_keeps_last (u : str) (c : ascii) :
  Py.is_space c = false -> exists x, Py.lstrip (u ++ [c]) = x ++ [c].
Proof.
  intros H. induction u as [|d u [x IH]]; simpl.
  - rewrite H. exists []. reflexivity.
  - destruct (Py.is_space d); [eauto|]. exists (d :: u). reflexivity.
Qed.

(** [strip] removes white space at both ends and nothing else; what it
    leaves is empty or begins and ends with a character that is not white
    space. *)
Lemma strip_spec (s : str) :
  (exists a b, s = a ++ Py.strip s ++ b
               /\ Forall (fun c => Py.is_space c = true) a
               /\ Forall (fun c => Py.is_space c = true) b)
  /\ (Py.strip s = []
      \/ exists c t, Py.strip s = c :: t /\ Py.is_space c = false).
Proof.
  unfold Py.strip. destruct (lstrip_spec s) as [a [Ea Fa]].
  destruct (lstrip_spec (rev (Py.lstrip s))) as [b [Eb Fb]]. split.
  - exists a, (rev b). split; [|split; [assumption | apply Forall_rev; assumption]].
    rewrite <- rev_app_distr, <- Eb, rev_involutive. exact Ea.
  - destruct (lstrip_head s) as [E | [c [t [E S]]]].
    + left. rewrite E. reflexivity.
    + right. rewrite E. simpl.
      destruct (lstrip_keeps_last (rev t) c S) as [x ->].
      exists c, (rev x). rewrite rev_app_distr. auto.
Qed.

Lemma strip_fixed (s : str) :
  (s = [] \/ exists c t, s = c :: t /\ Py.is_space c = false) ->
  (s = [] \/ exists t c, s = t ++ [c] /\ Py.is_space c = false) ->
  Py.strip s = s.
Proof.
  intros [-> | [c [t [E S]]]] L; [reflexivity|].
  destruct L as [-> | [t' [c' [E' S']]]]; [discriminate|].
  unfold Py.strip. rewrite E at 1. rewrite lstrip_fixed by assumption.
  rewrite <- E, E', rev_app_distr. simpl. rewrite S'. simpl.
  rewrite rev_involutive. reflexivity.
Qed.

Lemma upper_ends (s : str) :
  (s = [] \/ exists c t, s = c :: t /\ Py.is_space c = false) ->
  (Py.upper s = []
   \/ exists c t, Py.upper s = c :: t /\ Py.is_space c = false).
Proof.
  intros [-> | [c [t [-> S]]]]; [left; reflexivity|].
  right. exists (Py.upper_char c), (Py.upper t).
  rewrite upper_char_space. auto.
Qed.

(** X1, [load_list]: a missing file gives the empty corpus; every loaded
    line is non-empty, has no white space at either end and is its own
    upper case; so loading the loaded lines again changes nothing. *)
Theorem load_list_normal_form (path : file) :
  load_list None = []
  /\ (forall p, In p (load_list path) ->
                p <> [] /\ Py.strip p = p /\ Py.upper p = p)
  /\ load_list (Some (load_list path)) = load_list path.
Proof.
  assert (A : forall p, In p (load_list path) ->
                        p <> [] /\ Py.strip p = p /\ Py.upper p = p).
  { intros p H. pose proof (load_list_last path p H) as L.
    destruct path as [f|]; simpl in H; [|contradiction].
    apply in_map_iff in H. destruct H as [line [<- H]].
    apply filter_In in H. destruct H as [_ H].
    split; [|split].
    - destruct L as [t [c [E _]]]. rewrite E. destruct t; discriminate.
    - apply strip_fixed.
      + apply upper_ends. destruct (strip_spec line) as [_ [E | E]]; auto.
      + right. exact L.
    - apply upper_idem. }
  split; [reflexivity|]. split; [exact A|].
  cbn [load_list]. induction (load_list path) as [|p l IH]; [reflexivity|].
  destruct (A p (or_introl eq_refl)) as [N [S U]].
  cbn [filter]. rewrite S. destruct p as [|c p]; [congruence|].
  cbn [is_nil negb map]. rewrite S, U. f_equal. apply IH.
  intros q Hq. apply A. right. exact Hq.
Qed.

Lemma load_list_normal_form_witness :
  lit "THE CAT" <> [] /\ Py.strip (lit "THE CAT") = lit "THE CAT"
  /\ Py.upper (lit "THE CAT") = lit "THE CAT".
Proof.
  apply (proj1 (proj2 (load_list_normal_form (Some [lit "  "; lit " The cat "])))).
  left. reflexivity.
Defined.

Lemma extract_attempted_case (pattern : str) (l : list str) :
  extract_attempted_letters pattern (Some (map Py.upper l))
  = extract_attempted_letters pattern (Some l).
Proof.
  unfold extract_attempted_letters. destruct l as [|x l]; [reflexivity|].
  cbn [map]. rewrite !upper_idem. do 2 f_equal.
  rewrite map_map. apply map_ext. intros; apply upper_idem.
Qed.

Lemma wof_solver_pattern_case (pattern : str) (attempted_letters : option (list str))
  (words_path phrases_path : file) :
  wof_solver (Py.upper pattern) attempted_letters words_path phrases_path
  = wof_solver pattern attempted_letters words_path phrases_path.
Proof. unfold wof_solver. rewrite upper_idem. reflexivity. Qed.

(** X2, [wof_solver] and [extract_attempted_letters]: the case of the
    pattern and of the attempted letters does not matter, and an empty
    collection of attempted letters is the same as none. *)
Theorem wof_solver_ignores_case (pattern : str) (attempted : list str)
  (words_path phrases_path : file) :
  wof_solver (Py.upper pattern) (Some (map Py.upper attempted)) words_path phrases_path
  = wof_solver pattern (Some attempted) words_path phrases_path
  /\ wof_solver pattern (Some []) words_path phrases_path
     = wof_solver pattern None words_path phrases_path.
Proof.
  split; [|reflexivity].
  rewrite wof_solver_pattern_case. unfold wof_solver.
  rewrite extract_attempted_case. reflexivity.
Qed.

(** ** The generation paths, exactly *)


Lemma phrase_matches_In (pattern : str) (phrases forbidden : list str) (c : str) :
  Forall (fun c => special c = false) pattern ->
  (forall p s, In p phrases -> p <> s ++ [Re.newline]) ->
  In c (filter (fun p => Re.rmatch (Re.Bol :: map atom_of pattern ++ [Re.Eol]) p
                         && blanks_ok pattern p forbidden) phrases)
  <-> In c phrases /\ Forall2 (cell_fits forbidden) pattern c.
Proof.
  intros Plain Hn. split.
  - intros H. eapply phrase_matches_fits; try eassumption.
    apply phrase_matches_plain. assumption.
  - intros [Hin F]. apply filter_In. split; [assumption|].
    apply fits_blanks_ok in F. destruct F as [F B]. rewrite B, andb_true_r.
    apply rmatch_pattern. exists c. auto.
Qed.

(** X3, [phrase_matches]: on a pattern without characters that [re] reads
    as operators and phrases that do not end with a newline, the result
    is the corpus filtered, in corpus order, and holds exactly the
    phrases that face the pattern cell by cell: fixed characters equal,
    placeholders filled with upper-case letters that are not forbidden. *)
Theorem phrase_matches_exact (pattern : str) (phrases forbidden : list str) :
  Forall (fun c => special c = false) pattern ->
  (forall p s, In p phrases -> p <> s ++ [Re.newline]) ->
  exists pm,
    phrase_matches pattern phrases forbidden = Ok pm
    /\ (exists keep, pm = filter keep phrases)
    /\ (forall c, In c pm <->
                  In c phrases /\ Forall2 (cell_fits forbidden) pattern c).
Proof.
  intros Plain Hn. rewrite phrase_matches_plain by assumption.
  eexists. split; [reflexivity|]. split; [eexists; reflexivity|].
  intros c. apply phrase_matches_In; assumption.
Qed.

Lemma phrase_matches_exact_witness :
  exists pm,
    phrase_matches (lit "C_T") [lit "CUT"; lit "DOG"; lit "CAT"; lit "CET"] [lit "E"]
    = Ok pm
    /\ (exists keep, pm = filter keep [lit "CUT"; lit "DOG"; lit "CAT"; lit "CET"])
    /\ (forall c, In c pm <->
                  In c [lit "CUT"; lit "DOG"; lit "CAT"; lit "CET"]
                  /\ Forall2 (cell_fits [lit "E"]) (lit "C_T") c).
Proof.
  apply (phrase_matches_exact (lit "C_T") [lit "CUT"; lit "DOG"; lit "CAT"; lit "CET"]
           [lit "E"]).
  - repeat constructor.
  - intros p s H E. simpl in H.
    repeat (destruct H as [<- | H];
            [apply (f_equal (@rev ascii)) in E; rewrite rev_app_distr in E;
             discriminate E|]).
    contradiction.
Defined.



Lemma candidate_lists_exact (parts : list str) (words forbidden : list str) :
  Forall (Forall (fun c => special c = false)) parts ->
  (exists lists,
      candidate_lists parts words forbidden = Ok (Some lists)
      /\ Forall2 (fun part ms => match_words words part forbidden = Ok ms /\ ms <> [])
                 parts lists)
  \/ (candidate_lists parts words forbidden = Ok None
      /\ exists part, In part parts /\ match_words words part forbidden = Ok []).
Proof.
  induction 1 as [|part parts Hp _ IH]; cbn [candidate_lists].
  - left. exists []. split; [reflexivity | constructor].
  - destruct (match_words_total words part forbidden Hp) as [ms M]. rewrite M.
    cbn [bind]. destruct ms as [|m ms]; cbn [is_nil].
    + right. split; [reflexivity|]. exists part. split; [left; reflexivity | exact M].
    + destruct IH as [[lists [E F]] | [E [p [Hin Hp']]]]; rewrite E; cbn [bind option_map].
      * left. exists ((m :: ms) :: lists). split; [reflexivity|].
        constructor; [split; [exact M | discriminate] | exact F].
      * right. split; [reflexivity|]. exists p. split; [right; exact Hin | exact Hp'].
Qed.

(** The candidates of the word path on a pattern without operator
    characters: one fitting word of the corpus for each part, joined by
    single spaces. *)
Lemma solve_pattern_exact (pattern : str) (words forbidden : list str) :
  Forall (fun c => special c = false) pattern ->
  exists wb,
    solve_pattern pattern words forbidden = Ok wb
    /\ forall c,
         In c wb <->
         exists ws,
           c = Py.join (lit " ") ws
           /\ Forall2 (fun part w => In w words /\ Forall2 (cell_fits forbidden) part w)
                      (Py.split pattern) ws.
Proof.
  intros Plain. pose proof (split_Forall _ _ Plain) as Parts.
  unfold solve_pattern.
  destruct (candidate_lists_exact (Py.split pattern) words forbidden Parts)
    as [[lists [E F]] | [E [part [Hin M]]]]; rewrite E; cbn [bind].
  - eexists. split; [reflexivity|]. intros c. rewrite in_map_iff. split.
    + intros [ws [<- H]]. exists ws. split; [reflexivity|].
      apply product_In in H. clear E. revert ws H.
      induction F as [|part ms parts lists [M N] _ IH]; intros ws H;
        inversion H as [|ms' w lists' ws' Hw Hrest]; subst; constructor.
      * inversion Parts; subst.
        apply (match_words_fits words part forbidden ms w); assumption.
      * inversion Parts; subst. apply IH; assumption.
    + intros [ws [-> H]]. exists ws. split; [reflexivity|].
      apply product_In. clear E. revert ws H.
      induction F as [|part ms parts lists [M N] _ IH]; intros ws H;
        inversion H as [|part' w parts' ws' Hw Hrest]; subst; constructor.
      * inversion Parts; subst.
        apply (match_words_fits words part forbidden ms w); assumption.
      * inversion Parts; subst. apply IH; assumption.
  - exists []. split; [reflexivity|]. intros c. split; [contradiction|].
    intros [ws [_ H]]. rewrite Forall_forall in Parts.
    pose proof (Parts part Hin) as Pp. clear E. revert ws H.
    induction (Py.split pattern) as [|q parts IH]; [contradiction|].
    intros ws H. inversion H as [|q' w parts' ws' Hw Hrest]; subst.
    destruct Hin as [-> | Hin].
    + assert (Hm : In w []).
      { apply (match_words_fits words part forbidden [] w); assumption. }
      contradiction.
    + eapply IH; try eassumption. intros x Hx. apply Parts. right. exact Hx.
Qed.

(** The solutions on a pattern without operator characters. *)
Lemma solutions_exact_plain (pattern : str) (attempted_letters : option (list str))
  (words_path phrases_path : file) :
  Forall (fun c => special c = false) pattern ->
  exists r,
    wof_solver pattern attempted_letters words_path phrases_path = Ok r
    /\ forall c,
         In c (solutions r) <->
         (In c (load_list phrases_path)
          /\ Forall2 (cell_fits (forbidden_of (Py.upper pattern) attempted_letters))
                     (Py.upper pattern) c)
         \/ (exists ws,
                c = Py.join (lit " ") ws
                /\ Forall2
                     (fun part w =>
                        In w (load_list words_path)
                        /\ Forall2
                             (cell_fits (forbidden_of (Py.upper pattern) attempted_letters))
                             part w)
                     (Py.split (Py.upper pattern)) ws).
Proof.
  intros Plain.
  assert (U : Forall (fun c => special c = false) (Py.upper pattern)).
  { unfold Py.upper. apply Forall_map.
    eapply Forall_impl; [|exact Plain]. apply special_upper_char. }
  destruct (solve_pattern_exact (Py.upper pattern) (load_list words_path)
              (forbidden_of (Py.upper pattern) attempted_letters) U) as [wb [W Hw]].
  pose proof (phrase_matches_plain (Py.upper pattern) (load_list phrases_path)
                (forbidden_of (Py.upper pattern) attempted_letters) U) as P.
  eexists. split; [apply (wof_solver_run _ _ _ _ _ _ P W)|].
  intros c. cbn [solutions]. rewrite solutions_In, Hw, phrase_matches_In.
  - reflexivity.
  - assumption.
  - intros p s H. eapply load_list_no_newline; eassumption.
Qed.

(** ** Words of a candidate *)

Lemma split_word_then (w rest : str) (c : ascii) :
  Py.is_space c = false ->
  Forall (fun x => Py.is_space x = false) w ->
  Py.split (c :: w ++ " "%char :: rest) = (c :: w) :: Py.split rest.
Proof.
  intros Hc Hw. revert c Hc. induction Hw as [|d w Hd _ IH]; intros c Hc.
  - cbn [app]. apply split_cons_last; [assumption | reflexivity].
  - cbn [app]. destruct (split_cons_word c d (w ++ " "%char :: rest) Hc Hd)
      as [w0 [ws0 [E1 E2]]].
    rewrite E2. rewrite (IH d Hd) in E1. inversion E1. reflexivity.
Qed.

Lemma split_word_alone (w : str) (c : ascii) :
  Py.is_space c = false ->
  Forall (fun x => Py.is_space x = false) w ->
  Py.split (c :: w) = [c :: w].
Proof.
  intros Hc Hw. revert c Hc. induction Hw as [|d w Hd _ IH]; intros c Hc.
  - apply split_single. assumption.
  - destruct (split_cons_word c d w Hc Hd) as [w0 [ws0 [E1 E2]]].
    rewrite E2. rewrite (IH d Hd) in E1. inversion E1. reflexivity.
Qed.

(** Joining words with single spaces and splitting again gives the words
    back. *)
Lemma split_join_words (ws : list str) :
  Forall (fun w => w <> [] /\ Forall (fun x => Py.is_space x = false) w) ws ->
  Py.split (Py.join (lit " ") ws) = ws.
Proof.
  induction 1 as [|w ws [Hn Hw] Hrest IH]; [reflexivity|].
  destruct w as [|c w]; [congruence|]. inversion Hw as [|c' w' Hc Hw']; subst.
  destruct ws as [|v ws].
  - cbn [Py.join]. apply split_word_alone; assumption.
  - change (Py.join (lit " ") ((c :: w) :: v :: ws))
      with (c :: w ++ " "%char :: Py.join (lit " ") (v :: ws)).
    rewrite split_word_then by assumption. rewrite IH. reflexivity.
Qed.

(** The words of any string are non-empty and free of white space. *)
Lemma split_words (s : str) :
  Forall (fun w => w <> [] /\ Forall (fun x => Py.is_space x = false) w) (Py.split s).
Proof.
  induction s as [|c r IH]; [constructor|].
  destruct (Py.is_space c) eqn:Sc.
  - rewrite split_cons_space by assumption. exact IH.
  - destruct r as [|d r'].
    + rewrite split_single by assumption.
      repeat constructor; [discriminate | assumption].
    + destruct (Py.is_space d) eqn:Sd.
      * rewrite split_cons_last by assumption.
        rewrite split_cons_space in IH by assumption.
        constructor; [|exact IH]. split; [discriminate | repeat constructor; assumption].
      * destruct (split_cons_word c d r' Sc Sd) as [w [ws [E1 E2]]].
        rewrite E2. rewrite E1 in IH. inversion IH as [|w' ws' [Hn Hw] Hrest]; subst.
        constructor; [|assumption]. split; [discriminate | constructor; assumption].
Qed.

Lemma split_Forall2 (R : ascii -> ascii -> Prop) (p c : str) :
  (forall x y, R x y -> Py.is_space x = Py.is_space y) ->
  Forall2 R p c ->
  Forall2 (Forall2 R) (Py.split p) (Py.split c).
Proof.
  intros Sp. induction 1 as [|x y p c Hxy Hrest IH]; [constructor|].
  pose proof (Sp x y Hxy) as Exy.
  destruct (Py.is_space x) eqn:Sx.
  - rewrite !split_cons_space by congruence. exact IH.
  - assert (Sy : Py.is_space y = false) by congruence.
    destruct Hrest as [|x' y' p' c' Hxy' Hrest'].
    + rewrite !split_single by assumption. repeat constructor. assumption.
    + pose proof (Sp x' y' Hxy') as Exy'.
      destruct (Py.is_space x') eqn:Sx'.
      * rewrite !split_cons_last by congruence.
        rewrite !split_cons_space in IH by congruence.
        constructor; [repeat constructor; assumption | exact IH].
      * assert (Sy' : Py.is_space y' = false) by congruence.
        destruct (split_cons_word x x' p' Sx Sx') as [w [ws [E1 E2]]].
        destruct (split_cons_word y y' c' Sy Sy') as [v [vs [F1 F2]]].
        rewrite E2, F2. rewrite E1, F1 in IH.
        inversion IH; subst. constructor; [constructor|]; assumption.
Qed.

Lemma fits_valid (forbidden : list str) (n : nat) (p c : str) :
  length p <= n ->
  Forall2 (cell_fits forbidden) p c ->
  valid_pattern p = true ->
  valid_pattern c = true.
Proof.
  revert p c; induction n as [|n IH]; intros p c L F V;
    apply valid_pattern_cases in V; destruct V as [a [r [-> [Ha V]]]];
    simpl in L; [lia|].
  inversion F as [|a' x r' y Fa Fr]; subst.
  assert (Cx : is_cell x = true).
  { unfold cell_fits in Fa. destruct (Ascii.eqb a "_").
    - destruct Fa as [U _]. unfold is_cell. rewrite U. reflexivity.
    - subst. assumption. }
  assert (Cell : forall d z, is_cell d = true -> cell_fits forbidden d z ->
                             is_cell z = true).
  { intros d z Hd Fd. unfold cell_fits in Fd. destruct (Ascii.eqb d "_").
    - destruct Fd as [U _]. unfold is_cell. rewrite U. reflexivity.
    - subst. assumption. }
  cbn [valid_pattern]. rewrite Cx. cbn [andb].
  destruct V as [-> | [[r' [-> V]] | [d [r' [-> [Hd V]]]]]].
  - inversion Fr. reflexivity.
  - inversion Fr as [|s z r'' y' Fs Fr']; subst.
    unfold cell_fits in Fs. simpl in Fs. subst z. cbn [Ascii.eqb Bool.eqb].
    apply (IH r'); [simpl in L; lia | assumption | assumption].
  - inversion Fr as [|d' z r'' y' Fd Fr']; subst.
    pose proof (Cell d z Hd Fd) as Cz.
    assert (E : Ascii.eqb z " " = false).
    { destruct (Ascii.eqb z " ") eqn:E; [|reflexivity].
      apply Ascii.eqb_eq in E. subst z. discriminate. }
    rewrite E. apply (IH (d :: r')); [lia | assumption | assumption].
Qed.

Lemma fits_no_space (forbidden : list str) (part w : str) :
  Forall2 (cell_fits forbidden) part w ->
  Forall (fun x => Py.is_space x = false) part ->
  Forall (fun x => Py.is_space x = false) w.
Proof.
  induction 1 as [|a b part w Hab _ IH]; intros H; [constructor|].
  inversion H; subst. constructor; [|auto].
  rewrite <- (cell_fits_space _ _ _ Hab). assumption.
Qed.

Lemma Forall2_Forall_r {A B : Type} (R : A -> B -> Prop) (Q : B -> Prop)
  (l : list A) (m : list B) :
  Forall2 R l m -> Forall Q m -> Forall2 (fun a b => Q b /\ R a b) l m.
Proof.
  induction 1 as [|a b l m Hab _ IH]; intros HQ; inversion HQ; subst;
    constructor; auto.
Qed.

(** X5, [wof_solver]: on a valid pattern the solver returns, and its
    solutions are exactly the strings that face the pattern cell by cell
    (fixed letters equal, spaces in place, placeholders filled with
    upper-case letters that are neither attempted nor shown in the
    pattern) and that are a line of the phrase corpus or are made of
    words of the word corpus. *)
Theorem solutions_exact (pattern : str) (attempted_letters : option (list str))
  (words_path phrases_path : file) :
  valid_pattern pattern = true ->
  exists r,
    wof_solver pattern attempted_letters words_path phrases_path = Ok r
    /\ forall c,
         In c (solutions r) <->
         Forall2 (cell_fits (forbidden_of pattern attempted_letters)) pattern c
         /\ (In c (load_list phrases_path)
             \/ Forall (fun w => In w (load_list words_path)) (Py.split c)).
Proof.
  intros V.
  destruct (solutions_exact_plain pattern attempted_letters words_path phrases_path
              (valid_pattern_plain pattern V)) as [r [E H]].
  rewrite (valid_pattern_upper pattern V) in H.
  exists r. split; [exact E|]. intros c. rewrite H. clear H E. split.
  - intros [[Hin F] | [ws [-> F]]]; [tauto|].
    assert (Fits : Forall2 (Forall2 (cell_fits (forbidden_of pattern attempted_letters)))
                     (Py.split pattern) ws).
    { eapply Forall2_impl; [|exact F]. intros a b [_ Hab]. exact Hab. }
    split.
    + rewrite <- (valid_pattern_join pattern V) at 2.
      apply join_Forall2; [repeat constructor | exact Fits].
    + right. rewrite split_join_words.
      * clear Fits. induction F as [|part w parts ws [Hw _] _ IH]; constructor; auto.
      * pose proof (split_words pattern) as W. clear F.
        induction Fits as [|part w parts ws Hpw _ IH]; [constructor|].
        inversion W as [|part' parts' [Hn Hs] W']; subst.
        constructor; [|apply IH; assumption]. split.
        -- intros ->. inversion Hpw; subst. congruence.
        -- eapply fits_no_space; eassumption.
  - intros [F [Hin | Hw]]; [left; tauto|]. right.
    exists (Py.split c). split.
    + symmetry. apply valid_pattern_join.
      apply (fits_valid _ (length pattern) pattern c (le_n _) F V).
    + apply Forall2_Forall_r; [|exact Hw].
      apply split_Forall2; [apply cell_fits_space | exact F].
Qed.

Lemma solutions_exact_witness :
  exists r,
    wof_solver (lit "H_ THE_E") (Some [lit "s"])
               (Some [lit "hi"; lit "ho"; lit "these"; lit "there"])
               (Some [lit "He there"]) = Ok r
    /\ forall c,
         In c (solutions r) <->
         Forall2 (cell_fits (forbidden_of (lit "H_ THE_E") (Some [lit "s"])))
                 (lit "H_ THE_E") c
         /\ (In c (load_list (Some [lit "He there"]))
             \/ Forall (fun w => In w (load_list
                                         (Some [lit "hi"; lit "ho"; lit "these";
                                                lit "there"])))
                       (Py.split c)).
Proof.
  apply (solutions_exact (lit "H_ THE_E") (Some [lit "s"])
           (Some [lit "hi"; lit "ho"; lit "these"; lit "there"])
           (Some [lit "He there"])).
  reflexivity.
Defined.

(** ** More attempts, fewer candidates *)

Lemma forbidden_of_grows (pattern : str) (l l' : list str) (x : str) :
  (forall y, In y l -> In y l') ->
  In x (forbidden_of pattern (Some l)) -> In x (forbidden_of pattern (Some l')).
Proof.
  intros Sub. unfold forbidden_of, extract_attempted_letters.
  rewrite !in_app_iff. intros [H | [H | H]]; auto. right. right.
  assert (G : In x (map Py.upper l)) by (destruct l; [contradiction | exact H]).
  apply in_map_iff in G. destruct G as [y [<- Hy]]. apply Sub in Hy.
  destruct l' as [|y' l']; [contradiction|]. apply in_map. exact Hy.
Qed.

Lemma cell_fits_weaker (f f' : list str) (p c : ascii) :
  (forall x, In x f -> In x f') -> cell_fits f' p c -> cell_fits f p c.
Proof.
  intros Sub. unfold cell_fits. destruct (Ascii.eqb p "_"); [|auto].
  intros [U M]. split; [assumption|].
  destruct (Py.mem [c] f) eqn:E; [|reflexivity].
  apply mem_In, Sub, mem_In in E. congruence.
Qed.

(** X6, [wof_solver]: attempting more letters never brings a new
    candidate: the solutions for a larger collection of attempted letters
    are among the solutions for a smaller one. *)
Theorem more_attempts_fewer_solutions (pattern : str) (l l' : list str)
  (words_path phrases_path : file) :
  Forall (fun c => special c = false) pattern ->
  (forall y, In y l -> In y l') ->
  exists r r',
    wof_solver pattern (Some l) words_path phrases_path = Ok r
    /\ wof_solver pattern (Some l') words_path phrases_path = Ok r'
    /\ forall c, In c (solutions r') -> In c (solutions r).
Proof.
  intros Plain Sub.
  destruct (solutions_exact_plain pattern (Some l) words_path phrases_path Plain)
    as [r [E H]].
  destruct (solutions_exact_plain pattern (Some l') words_path phrases_path Plain)
    as [r' [E' H']].
  exists r, r'. split; [exact E|]. split; [exact E'|].
  intros c Hc. apply H. apply H' in Hc.
  assert (W : forall p x,
             cell_fits (forbidden_of (Py.upper pattern) (Some l')) p x ->
             cell_fits (forbidden_of (Py.upper pattern) (Some l)) p x).
  { intros p x. apply cell_fits_weaker. intros y. apply forbidden_of_grows, Sub. }
  destruct Hc as [[Hin F] | [ws [-> F]]].
  - left. split; [assumption|]. eapply Forall2_impl; [|exact F]. exact W.
  - right. exists ws. split; [reflexivity|].
    eapply Forall2_impl; [|exact F]. intros part w [Hw Fw].
    split; [assumption|]. eapply Forall2_impl; [|exact Fw]. exact W.
Qed.

Lemma more_attempts_fewer_solutions_witness :
  exists r r',
    wof_solver (lit "C_T") (Some [lit "a"])
               (Some [lit "cat"; lit "cot"; lit "cut"]) None = Ok r
    /\ wof_solver (lit "C_T") (Some [lit "o"; lit "a"])
                  (Some [lit "cat"; lit "cot"; lit "cut"]) None = Ok r'
    /\ forall c, In c (solutions r') -> In c (solutions r).
Proof.
  apply (more_attempts_fewer_solutions (lit "C_T") [lit "a"] [lit "o"; lit "a"]
           (Some [lit "cat"; lit "cot"; lit "cut"]) None).
  - repeat constructor.
  - intros y H. right. exact H.
Defined.

(** ** Order of the ranking *)

Lemma sorted_before {A : Type} (R : A -> A -> Prop) (l : list A) :
  StronglySorted R l ->
  forall i j x y, i < j -> nth_error l i = Some x -> nth_error l j = Some y -> R x y.
Proof.
  induction 1 as [|a l Hs IH Ha]; intros i j x y Lt Hi Hj.
  - destruct i; discriminate.
  - destruct j as [|j]; [lia|]. destruct i as [|i]; simpl in *.
    + inversion Hi; subst. rewrite Forall_forall in Ha. apply Ha.
      eapply nth_error_In; eassumption.
    + apply (IH i j); [lia | assumption | assumption].
Qed.

Lemma score_bounds (phrase_set : list str) (s : str) :
  (if Py.mem s phrase_set then 100 <= score (Some phrase_set) s
   else score (Some phrase_set) s <= Z.of_nat (length s))%Z.
Proof.
  assert (B : (0 <= Z.of_nat (length (filter etaoin s)) <= Z.of_nat (length s))%Z).
  { pose proof (filter_length_le etaoin s). lia. }
  unfold score. rewrite letter_sum.
  destruct phrase_set as [|p ps].
  - change (Py.mem s []) with false. cbv iota. lia.
  - destruct (Py.mem s (p :: ps)); lia.
Qed.

(** X7, [rank_solutions]: a candidate that is in the phrase set comes
    before every candidate of fewer than 100 characters that is not: the
    bonus of 100 outweighs any sum of letter weights of such a string. *)
Theorem phrases_rank_first (candidates phrase_set : list str) (a b : str) (i j : nat) :
  nth_error (rank_solutions candidates (Some phrase_set)) i = Some a ->
  nth_error (rank_solutions candidates (Some phrase_set)) j = Some b ->
  Py.mem a phrase_set = true ->
  Py.mem b phrase_set = false ->
  length b < 100 ->
  i < j.
Proof.
  intros Hi Hj Ma Mb Lb.
  pose proof (score_bounds phrase_set a) as Sa. rewrite Ma in Sa.
  pose proof (score_bounds phrase_set b) as Sb. rewrite Mb in Sb.
  destruct (Nat.lt_trichotomy i j) as [Lt | [Eq | Gt]]; [assumption | |].
  - subst j. rewrite Hi in Hj. inversion Hj; subst. congruence.
  - pose proof (sorted_before _ _ (rank_solutions_sorted candidates (Some phrase_set))
                  j i b a Gt Hj Hi) as R.
    cbv beta in R. lia.
Qed.

Lemma phrases_rank_first_witness : 1 < 2.
Proof.
  apply (phrases_rank_first [lit "SUN"; lit "TEA"; lit "ZZZ"; lit "QQQ"]
           [lit "ZZZ"; lit "QQQ"] (lit "QQQ") (lit "SUN") 1 2);
    [reflexivity | reflexivity | reflexivity | reflexivity | simpl; lia].
Defined.

Lemma insert_stable {A : Type} (key : A -> Z) (k : Z) (x : A) (l : list A) :
  filter (fun y => (key y =? k)%Z) (Py.insert (fun a b => (key b <=? key a)%Z) x l)
  = filter (fun y => (key y =? k)%Z) (x :: l).
Proof.
  induction l as [|y l IH]; [reflexivity|].
  cbn [Py.insert]. destruct (key y <=? key x)%Z eqn:E; [reflexivity|].
  cbn [filter] in *. rewrite IH.
  destruct (Z.eqb_spec (key x) k); [|reflexivity].
  destruct (Z.eqb_spec (key y) k); [|reflexivity].
  apply Z.leb_gt in E. lia.
Qed.

Lemma sorted_desc_stable {A : Type} (key : A -> Z) (k : Z) (l : list A) :
  filter (fun y => (key y =? k)%Z) (Py.sorted_desc key l)
  = filter (fun y => (key y =? k)%Z) l.
Proof.
  unfold Py.sorted_desc. induction l as [|x l IH]; [reflexivity|].
  cbn [Py.sort fold_right]. rewrite insert_stable. cbn [filter].
  fold (Py.sort (fun a b => (key b <=? key a)%Z) l). rewrite IH. reflexivity.
Qed.

Lemma filter_map_fst (f : str -> Z) (k : Z) (pairs : list (str * Z)) :
  Forall (fun p => snd p = f (fst p)) pairs ->
  filter (fun s => (f s =? k)%Z) (map fst pairs)
  = map fst (filter (fun p => (snd p =? k)%Z) pairs).
Proof.
  induction 1 as [|p pairs Hp _ IH]; [reflexivity|].
  cbn [map filter]. rewrite IH, Hp. destruct (f (fst p) =? k)%Z; reflexivity.
Qed.

(** X8, [rank_solutions]: the ranking is stable: the candidates of any
    one score appear in the ranking in the order in which they were given
    (in [wof_solver], in alphabetical order). *)
Theorem ranking_is_stable (candidates : list str) (phrase_set : option (list str))
  (k : Z) :
  filter (fun s => (score phrase_set s =? k)%Z) (rank_solutions candidates phrase_set)
  = filter (fun s => (score phrase_set s =? k)%Z) candidates.
Proof.
  unfold rank_solutions.
  rewrite (filter_map_fst (score phrase_set)).
  - rewrite sorted_desc_stable.
    rewrite <- (filter_map_fst (score phrase_set)).
    + rewrite map_map. cbn [fst]. rewrite map_id. reflexivity.
    + apply Forall_forall. intros p Hp. apply in_map_iff in Hp.
      destruct Hp as [s [<- _]]. reflexivity.
  - apply Forall_forall. intros p Hp.
    apply (Permutation_in _ (sorted_desc_perm _ _)) in Hp.
    apply in_map_iff in Hp. destruct Hp as [s [<- _]]. reflexivity.
Qed.

(** ** Shape of the recommendation *)

Lemma penalize_append (attempted : list str) (letters : str) (c : Py.Counter) :
  NoDup letters ->
  fold_left (penalize_step attempted) letters c
  = c ++ map (fun ch => (ch, (-1)%Z))
             (filter (fun ch => negb (Py.mem [ch] attempted)
                                && negb (Py.counter_has c ch)) letters).
Proof.
  intros N. revert c. induction N as [|l letters Hl N IH]; intros c.
  - cbn [fold_left filter map]. rewrite app_nil_r. reflexivity.
  - cbn [fold_left filter]. rewrite IH. unfold penalize_step.
    destruct (negb (Py.mem [l] attempted) && negb (Py.counter_has c l)) eqn:E;
      [|reflexivity].
    split_bools. rewrite counter_add_new by assumption.
    rewrite <- app_assoc. cbn [map app]. do 3 f_equal.
    apply filter_ext_in. intros ch Hch. f_equal. f_equal.
    unfold Py.counter_has.
    change (c ++ [(l, (-1)%Z)]) with (c ++ [(l, (-1)%Z)]).
    rewrite <- (counter_add_new c l (-1)%Z) by assumption.
    rewrite counter_get_add.
    destruct (Ascii.eqb ch l) eqn:El; [|reflexivity].
    apply Ascii.eqb_eq in El. subst ch. contradiction.
Qed.

Lemma insert_app_low {A : Type} (leb : A -> A -> bool) (x : A) (l low : list A) :
  (forall y, In y low -> leb x y = true) ->
  Py.insert leb x (l ++ low) = Py.insert leb x l ++ low.
Proof.
  intros H. induction l as [|z l IH]; cbn [app Py.insert].
  - destruct low as [|y low]; [reflexivity|].
    cbn [Py.insert app]. rewrite (H y (or_introl eq_refl)). reflexivity.
  - destruct (leb x z); [reflexivity|]. rewrite IH. reflexivity.
Qed.

Lemma sort_app_low {A : Type} (leb : A -> A -> bool) (l low : list A) :
  (forall x y, In x l -> In y low -> leb x y = true) ->
  Py.sort leb low = low ->
  Py.sort leb (l ++ low) = Py.sort leb l ++ low.
Proof.
  intros H S. induction l as [|x l IH]; [exact S|].
  cbn [app Py.sort fold_right]. fold (Py.sort leb (l ++ low)). fold (Py.sort leb l).
  rewrite IH.
  - apply insert_app_low. intros y Hy. apply H; [left; reflexivity | exact Hy].
  - intros a b Ha Hb. apply H; [right; exact Ha | exact Hb].
Qed.

(** The recommendation under the default weights: the letters seen in a
    candidate, then the others. *)
Lemma recommend_shape (candidates attempted phrase_set : list str) :
  exists seen,
    recommend_next_letter candidates attempted None phrase_set
    = seen
      ++ map (fun ch => (ch, (-1)%Z))
             (filter (fun ch => negb (Py.mem [ch] attempted)
                                && (credit phrase_set ch candidates =? 0)%Z)
                     alphabet)
    /\ Forall (fun p => (0 < snd p)%Z) seen
    /\ Forall (fun p => (0 < credit phrase_set (fst p) candidates)%Z) seen.
Proof.
  unfold recommend_next_letter. rewrite default_weights, penalize_fold.
  set (c := fold_left (count_solution attempted phrase_set)
                      (map (fun s => (s, 1%Z)) candidates) []).
  assert (Pos : all_positive c) by (apply all_positive_count; constructor).
  assert (K : keys_ok attempted c)
    by (apply count_solutions_keys; split; constructor).
  assert (G : forall ch, Py.is_upper ch = true -> Py.mem [ch] attempted = false ->
                         Py.counter_get0 c ch = credit phrase_set ch candidates).
  { intros ch U M. unfold c. rewrite count_solutions_get0 by assumption.
    reflexivity. }
  rewrite (penalize_append attempted alphabet c alphabet_NoDup).
  assert (E : filter (fun ch => negb (Py.mem [ch] attempted)
                                && negb (Py.counter_has c ch)) alphabet
              = filter (fun ch => negb (Py.mem [ch] attempted)
                                  && (credit phrase_set ch candidates =? 0)%Z)
                       alphabet).
  { apply filter_ext_in. intros ch Hch.
    destruct (Py.mem [ch] attempted) eqn:M; [reflexivity|]. cbn [negb andb].
    apply alphabet_upper in Hch. rewrite <- (G ch Hch M).
    unfold Py.counter_has, Py.counter_get0.
    destruct (Py.counter_get c ch) as [v|] eqn:E; [|reflexivity].
    apply (all_positive_get _ _ _ Pos) in E. cbn [negb]. symmetry.
    apply Z.eqb_neq. lia. }
  rewrite E. clear E.
  generalize (filter (fun ch => negb (Py.mem [ch] attempted)
                                && (credit phrase_set ch candidates =? 0)%Z)
                     alphabet) as unseen.
  intros unseen.
  exists (Py.most_common c). split; [|split].
  - unfold Py.most_common, Py.sorted_desc.
    apply sort_app_low.
    + intros x y Hx Hy. unfold all_positive in Pos. rewrite Forall_forall in Pos.
      apply in_map_iff in Hy. destruct Hy as [ch [<- _]]. cbn [snd].
      apply Z.leb_le. specialize (Pos x Hx). lia.
    + apply (sort_constant snd _ (-1)%Z). apply Forall_forall. intros p Hp.
      apply in_map_iff in Hp. destruct Hp as [ch [<- _]]. reflexivity.
  - unfold all_positive in Pos. rewrite Forall_forall in *. intros p Hp.
    apply Pos. eapply Permutation_in; [apply most_common_perm | exact Hp].
  - destruct K as [N F]. rewrite Forall_forall in *. intros [ch v] Hp.
    apply (Permutation_in _ (most_common_perm c)) in Hp. cbn [fst].
    destruct (F ch (in_map fst _ _ Hp)) as [U M].
    rewrite <- (G ch U M). unfold Py.counter_get0.
    apply (counter_get_In c ch v N) in Hp. rewrite Hp.
    unfold all_positive in Pos. rewrite Forall_forall in Pos.
    apply (all_positive_get c ch v); [apply Forall_forall; exact Pos | exact Hp].
Qed.

(** X9, [recommend_next_letter] with the default weights: the letters
    that occur in a candidate come first, each with a positive weight,
    and the other letters that were not attempted follow in alphabetical
    order, each with -1. *)
Theorem unseen_letters_come_last (candidates attempted phrase_set : list str) :
  exists seen,
    recommend_next_letter candidates attempted None phrase_set
    = seen
      ++ map (fun ch => (ch, (-1)%Z))
             (filter (fun ch => negb (Py.mem [ch] attempted)
                                && (credit phrase_set ch candidates =? 0)%Z)
                     alphabet)
    /\ Forall (fun p => (0 < snd p)%Z) seen
    /\ Forall (fun p => (0 < credit phrase_set (fst p) candidates)%Z) seen.
Proof. apply recommend_shape. Qed.

Lemma combine_both_firstn {A B : Type} (l : list A) (m : list B) :
  combine (firstn (length m) l) (firstn (length l) m) = combine l m.
Proof.
  revert m; induction l as [|x l IH]; intros [|y m]; cbn; try reflexivity.
  rewrite IH. reflexivity.
Qed.

(** Candidates and given weights are paired in order; what is left over
    on either side is ignored. *)
Lemma weights_pair_in_order (candidates attempted : list str) (weights : list Z)
  (phrase_set : list str) :
  recommend_next_letter candidates attempted (Some weights) phrase_set
  = recommend_next_letter (firstn (length weights) candidates) attempted
      (Some (firstn (length candidates) weights)) phrase_set
  /\ recommend_next_letter candidates attempted (Some []) phrase_set
     = penalties attempted.
Proof.
  split.
  - unfold recommend_next_letter. rewrite combine_both_firstn. reflexivity.
  - rewrite <- (recommend_nothing attempted phrase_set).
    unfold recommend_next_letter. rewrite combine_nil. reflexivity.
Qed.


(** * Properties of the other modules *)

(** ** The other modules at work *)

Example normalize_phrase_example :
  Solver2.normalize_phrase (lit "  it's a-b,  10%  ") = lit "IT'S A B 10".
Proof. reflexivity. Qed.

Example pattern_to_regex_v2_example :
  Solver2.pattern_to_regex (lit "th_ qu_ck") = lit "^TH\s+QU\s+CK$".
Proof. reflexivity. Qed.

Example guess_phrase_example :
  Solver1.guess_phrase (lit " c_t  _o ")
                       [lit "CAT"; lit "GO"; lit "CUT"; lit "NO"; lit "DOG"]
  = Ok [lit "CAT GO"; lit "CAT NO"; lit "CUT GO"; lit "CUT NO"].
Proof. reflexivity. Qed.

Example clean_phrase_examples :
  BuildPhrases.clean_phrase (lit "of  the_") = Some (lit "OF THE")
  /\ BuildPhrases.clean_phrase (lit "a.") = None.
Proof. split; reflexivity. Qed.

Example get_random_puzzle_examples :
  PuzzleParser.get_random_puzzle 1
    (Some [lit "A,B,C,D"; lit "TOM &amp; JERRY,Show &amp;amp; tell,1/2/03,R"; lit "bad"])
  = PuzzleParser.Returned
      (Some (lit "TOM & JERRY", lit "Show &amp; tell", lit "1/2/03", lit "R"))
  /\ PuzzleParser.get_random_puzzle 2
       (Some [lit "A,B,C,D"; lit "TOM &amp; JERRY,Show,1/2/03,R"; lit "bad"])
     = PuzzleParser.ValueError
  /\ PuzzleParser.get_random_puzzle 5 (Some [lit "A,B,C,D"])
     = PuzzleParser.Returned None.
Proof. repeat split; reflexivity. Qed.

Example word_counts_example :
  Solver2._derive_word_counts [lit "THE CAT"; lit "THE DOG"] [lit "CAT"; lit "EMU"]
  = [(lit "THE", 2%Z); (lit "CAT", 1%Z); (lit "DOG", 1%Z); (lit "EMU", 0%Z)].
Proof. reflexivity. Qed.

(** ** Replacing runs of characters *)

Section Tidy.
Variable keep : ascii -> bool.
Hypothesis keep_space : keep " " = true.
Hypothesis keep_not_lower : forall c, keep c = true -> Py.is_lower c = false.

Lemma sub_runs_kept (s : str) :
  Forall (fun c => keep c = true) (re_sub_runs (fun c => negb (keep c)) (lit " ") s).
Proof.
  induction s as [|c r IH]; [constructor|]. cbn [re_sub_runs].
  destruct (keep c) eqn:K; cbn [negb].
  - constructor; assumption.
  - destruct r as [|d r']; [repeat constructor; assumption|].
    destruct (negb (keep d)); [exact IH|].
    cbn [lit list_ascii_of_string app]. constructor; assumption.
Qed.

Lemma sub_runs_nothing (cls : ascii -> bool) (repl s : str) :
  Forall (fun c => cls c = false) s -> re_sub_runs cls repl s = s.
Proof.
  induction 1 as [|c r Hc _ IH]; [reflexivity|].
  cbn [re_sub_runs]. rewrite Hc, IH. reflexivity.
Qed.

Lemma collapse_kept (s : str) :
  Forall (fun c => keep c = true) s ->
  Forall (fun c => keep c = true) (re_sub_runs Py.is_space (lit " ") s).
Proof.
  induction 1 as [|c r Hc Hr IH]; [constructor|]. cbn [re_sub_runs].
  destruct (Py.is_space c).
  - destruct r as [|d r']; [repeat constructor; assumption|].
    destruct (Py.is_space d); [exact IH|].
    cbn [lit list_ascii_of_string app]. constructor; assumption.
  - constructor; assumption.
Qed.

Lemma strip_kept (s : str) :
  Forall (fun c => keep c = true) s -> Forall (fun c => keep c = true) (Py.strip s).
Proof.
  intros H. destruct (strip_spec s) as [[a [b [E _]]] _].
  rewrite E in H. apply Forall_app in H. destruct H as [_ H].
  apply Forall_app in H. tauto.
Qed.

Lemma upper_kept (s : str) :
  Forall (fun c => keep c = true) s -> Py.upper s = s.
Proof.
  induction 1 as [|c r Hc _ IH]; [reflexivity|].
  cbn [Py.upper map]. fold (Py.upper r).
  rewrite IH, upper_char_fixes; [reflexivity | apply keep_not_lower; assumption].
Qed.

End Tidy.

Lemma single_spaced_cons2 (x y : ascii) (t : str) :
  single_spaced (x :: y :: t)
  = (negb (Py.is_space x) || Ascii.eqb x " ")
    && negb (Py.is_space x && Py.is_space y)
    && single_spaced (y :: t).
Proof. reflexivity. Qed.

Lemma sub_runs_keeps (cls : ascii -> bool) (repl : str) (c : ascii) (r : str) :
  cls c = false -> re_sub_runs cls repl (c :: r) = c :: re_sub_runs cls repl r.
Proof. intros H. cbn [re_sub_runs]. rewrite H. reflexivity. Qed.

Lemma collapse_single_spaced (s : str) :
  single_spaced (re_sub_runs Py.is_space (lit " ") s) = true.
Proof.
  induction s as [|c r IH]; [reflexivity|].
  destruct (Py.is_space c) eqn:Sc.
  - cbn [re_sub_runs]. rewrite Sc. destruct r as [|d r']; [reflexivity|].
    destruct (Py.is_space d) eqn:Sd; [exact IH|].
    rewrite sub_runs_keeps in * by assumption.
    change (lit " " ++ ?x) with (" "%char :: x).
    rewrite single_spaced_cons2, Sd, IH. reflexivity.
  - rewrite sub_runs_keeps by assumption.
    destruct (re_sub_runs Py.is_space (lit " ") r) as [|y t] eqn:E.
    + cbn [single_spaced]. rewrite Sc. reflexivity.
    + rewrite single_spaced_cons2, Sc, IH. reflexivity.
Qed.

Lemma single_spaced_tail (c : ascii) (r : str) :
  single_spaced (c :: r) = true -> single_spaced r = true.
Proof. cbn [single_spaced]. intros H. split_bools. assumption. Qed.

Lemma single_spaced_suffix (a s : str) :
  single_spaced (a ++ s) = true -> single_spaced s = true.
Proof.
  induction a as [|c a IH]; [auto|]. intros H. apply IH.
  apply (single_spaced_tail c). exact H.
Qed.

Lemma single_spaced_prefix (s b : str) :
  single_spaced (s ++ b) = true -> single_spaced s = true.
Proof.
  induction s as [|c r IH]; [reflexivity|]. cbn [app single_spaced].
  intros H. split_bools. rewrite H, (IH H0), andb_true_r. cbn [andb].
  destruct r as [|d r']; [reflexivity|]. exact H1.
Qed.

Lemma strip_single_spaced (s : str) :
  single_spaced s = true -> single_spaced (Py.strip s) = true.
Proof.
  intros H. destruct (strip_spec s) as [[a [b [E _]]] _]. rewrite E in H.
  apply single_spaced_suffix in H. apply single_spaced_prefix in H. exact H.
Qed.

Lemma collapse_nothing (s : str) :
  single_spaced s = true -> re_sub_runs Py.is_space (lit " ") s = s.
Proof.
  induction s as [|c r IH]; [reflexivity|]. intros H.
  pose proof (single_spaced_tail c r H) as T. cbn [single_spaced] in H.
  cbn [re_sub_runs]. rewrite (IH T). split_bools.
  destruct (Py.is_space c) eqn:Sc; [|reflexivity].
  cbn [negb orb] in H. apply Ascii.eqb_eq in H. subst c.
  destruct r as [|d r']; [reflexivity|].
  cbn [andb] in H1. apply negb_true_iff in H1. rewrite H1. reflexivity.
Qed.

Lemma strip_idem (s : str) : Py.strip (Py.strip s) = Py.strip s.
Proof.
  apply strip_fixed.
  - apply strip_spec.
  - destruct (strip_last s) as [E | [t [c [E S]]]]; [left; exact E|].
    right. exists t, c. auto.
Qed.

(** What upper-casing, replacing the runs of characters outside [keep] by
    a space, collapsing white space and stripping leave: a string of kept
    characters that the same four steps do not change. *)
Lemma tidy_normal (keep : ascii -> bool) :
  keep " "%char = true ->
  (forall c, keep c = true -> Py.is_lower c = false) ->
  forall s,
    let t := Py.strip
               (re_sub_runs Py.is_space (lit " ")
                  (re_sub_runs (fun c => negb (keep c)) (lit " ") (Py.upper s))) in
    Forall (fun c => keep c = true) t
    /\ Py.strip t = t
    /\ single_spaced t = true
    /\ Py.strip
         (re_sub_runs Py.is_space (lit " ")
            (re_sub_runs (fun c => negb (keep c)) (lit " ") (Py.upper t))) = t.
Proof.
  intros Hs Hl s t.
  assert (K : Forall (fun c => keep c = true) t).
  { apply strip_kept, (collapse_kept keep Hs), (sub_runs_kept keep Hs). }
  assert (E : Py.strip t = t) by apply strip_idem.
  assert (S : single_spaced t = true)
    by apply strip_single_spaced, collapse_single_spaced.
  split; [exact K|]. split; [exact E|]. split; [exact S|].
  rewrite (upper_kept keep Hl t K).
  rewrite (sub_runs_nothing (fun c => negb (keep c))).
  - rewrite (collapse_nothing t S). exact E.
  - eapply Forall_impl; [|exact K]. intros c Hc. cbv beta. rewrite Hc. reflexivity.
Qed.

(** ** [wof_solver2.py]: normal forms *)

Lemma kept_space : Solver2.kept " " = true.
Proof. reflexivity. Qed.

Lemma kept_not_lower (c : ascii) : Solver2.kept c = true -> Py.is_lower c = false.
Proof. by_cases c. Qed.

Lemma normalize_kept (s : str) :
  Forall (fun c => Solver2.kept c = true) (Solver2.normalize_phrase s).
Proof.
  unfold Solver2.normalize_phrase.
  apply strip_kept, (collapse_kept _ kept_space), (sub_runs_kept _ kept_space).
Qed.

Lemma normalize_fixed (t : str) :
  Forall (fun c => Solver2.kept c = true) t ->
  single_spaced t = true ->
  Py.strip t = t ->
  Solver2.normalize_phrase t = t.
Proof.
  intros K S E. unfold Solver2.normalize_phrase.
  rewrite (upper_kept _ kept_not_lower t K).
  rewrite (sub_runs_nothing (fun c => negb (Solver2.kept c))).
  - rewrite collapse_nothing by assumption. exact E.
  - eapply Forall_impl; [|exact K]. intros c Hc. cbv beta. rewrite Hc. reflexivity.
Qed.

Lemma normalize_phrase_fixpoint (s : str) :
  Solver2.normalize_phrase (Solver2.normalize_phrase s) = Solver2.normalize_phrase s.
Proof.
  apply normalize_fixed.
  - apply normalize_kept.
  - apply strip_single_spaced, collapse_single_spaced.
  - apply strip_idem.
Qed.

(** X10, [wof_solver2.normalize_phrase]: the result holds only upper-case
    letters, digits, spaces, apostrophes and double quotes, has no white
    space at either end and no two spaces side by side, and normalizing
    it again changes nothing. *)
Theorem normalize_phrase_normal_form (s : str) :
  let t := Solver2.normalize_phrase s in
  Forall (fun c => Solver2.kept c = true) t
  /\ Py.strip t = t
  /\ single_spaced t = true
  /\ Py.upper t = t
  /\ Solver2.normalize_phrase t = t.
Proof.
  intros t. pose proof (normalize_kept s) as K. fold t in K.
  assert (E : Py.strip t = t) by apply strip_idem.
  assert (S : single_spaced t = true)
    by apply strip_single_spaced, collapse_single_spaced.
  split; [exact K|]. split; [exact E|]. split; [exact S|].
  split; [apply (upper_kept _ kept_not_lower); exact K|].
  apply normalize_fixed; assumption.
Qed.

Lemma kept_escape (c : ascii) :
  Solver2.kept c = true ->
  Ascii.eqb c "_" = false
  /\ (Ascii.eqb c " " = false -> Solver2.re_escape c = [c])
  /\ c <> "_"%char /\ c <> "["%char.
Proof.
  destruct c as [[] [] [] [] [] [] [] []]; vm_compute; try discriminate;
    intros _; repeat split; try discriminate; auto.
Qed.

Lemma flat_map_step {A B : Type} (f : A -> list B) (x : A) (l : list A) :
  flat_map f (x :: l) = f x ++ flat_map f l.
Proof. reflexivity. Qed.

Lemma regex_parts_kept (t : str) :
  Forall (fun c => Solver2.kept c = true) t ->
  ~ In "_"%char t
  /\ flat_map (fun ch => if Ascii.eqb ch "_" then lit "[A-Z]"
                         else if Ascii.eqb ch " " then lit "\s+"
                         else Solver2.re_escape ch) t
     = flat_map (fun ch => if Ascii.eqb ch " " then lit "\s+" else [ch]) t
  /\ ~ In "["%char
          (flat_map (fun ch => if Ascii.eqb ch " " then lit "\s+" else [ch]) t).
Proof.
  induction 1 as [|c t Hc _ [IH1 [IH2 IH3]]].
  - repeat split; auto.
  - destruct (kept_escape c Hc) as [E1 [E2 [N1 N2]]]. split; [|split].
    + intros [H | H]; [congruence | exact (IH1 H)].
    + rewrite !flat_map_step. cbv beta. rewrite E1, IH2.
      destruct (Ascii.eqb c " "); [reflexivity|]. rewrite E2; reflexivity.
    + rewrite flat_map_step. cbv beta. intros H.
      apply in_app_or in H. destruct H as [H | H]; [|exact (IH3 H)].
      destruct (Ascii.eqb c " ").
      * vm_compute in H. intuition discriminate.
      * destruct H as [H | []]. congruence.
Qed.

(** X11, [wof_solver2.pattern_to_regex]: no underscore survives
    [normalize_phrase], which turns it into a space; so the branch that
    writes [[A-Z]] is never taken: the regular expression is the
    normalized pattern with [\s+] for each space, and holds no opening
    bracket. *)
Theorem placeholders_are_lost (pattern : str) :
  ~ In "_"%char (Solver2.normalize_phrase pattern)
  /\ Solver2.pattern_to_regex pattern
     = lit "^"
       ++ flat_map (fun ch => if Ascii.eqb ch " " then lit "\s+" else [ch])
                   (Solver2.normalize_phrase pattern)
       ++ lit "$"
  /\ ~ In "["%char (Solver2.pattern_to_regex pattern).
Proof.
  destruct (regex_parts_kept _ (normalize_kept pattern)) as [N [E B]].
  unfold Solver2.pattern_to_regex. cbv zeta. rewrite E.
  split; [exact N|]. split; [reflexivity|].
  change (lit "^" ++ ?x) with ("^"%char :: x).
  intros [H | H]; [discriminate|].
  apply in_app_or in H. destruct H as [H | H]; [exact (B H)|].
  vm_compute in H. intuition discriminate.
Qed.

(** ** [wof_solver2.py]: loading the phrases *)

Lemma dedup_spec (seen cleaned : list str) :
  NoDup (Solver2.dedup seen cleaned)
  /\ forall x, In x (Solver2.dedup seen cleaned) <-> In x cleaned /\ ~ In x seen.
Proof.
  revert seen; induction cleaned as [|ph rest IH]; intros seen; cbn [Solver2.dedup].
  - split; [constructor|]. intros x. simpl. tauto.
  - destruct (Py.mem ph seen) eqn:M.
    + destruct (IH seen) as [N H]. split; [exact N|]. intros x. rewrite H.
      apply mem_In in M. simpl. split; [tauto|]. intros [[<- | Hx] Hs]; tauto.
    + destruct (IH (ph :: seen)) as [N H]. split.
      * constructor; [|exact N]. rewrite H. simpl. tauto.
      * intros x. simpl. rewrite H. simpl.
        assert (Hs : ~ In ph seen) by (rewrite <- mem_In; congruence).
        destruct (list_eq_dec ascii_dec ph x) as [<- | Ne]; tauto.
Qed.

(** X12, [Dataset._load_phrases]: the phrases are loaded from
    [phrases.txt], or else from the first that exists of
    [wof_phrases.txt], [phrases_common.txt] and [phrases_all.txt], in
    this order, and are empty when none exists; the loaded phrases are
    without duplicates, and are exactly the normal forms, when not
    empty, of the lines of that file that are not blank; each is its
    own normal form. *)
Theorem load_phrases_normal (dir : Solver2.data_dir) :
  NoDup (Solver2._load_phrases dir)
  /\ (forall ph,
        In ph (Solver2._load_phrases dir) ->
        ph <> [] /\ Solver2.normalize_phrase ph = ph)
  /\ (forall f ph,
        dir (lit "phrases.txt") = Some f
        \/ (dir (lit "phrases.txt") = None
            /\ dir (lit "wof_phrases.txt") = Some f)
        \/ (dir (lit "phrases.txt") = None
            /\ dir (lit "wof_phrases.txt") = None
            /\ dir (lit "phrases_common.txt") = Some f)
        \/ (dir (lit "phrases.txt") = None
            /\ dir (lit "wof_phrases.txt") = None
            /\ dir (lit "phrases_common.txt") = None
            /\ dir (lit "phrases_all.txt") = Some f) ->
        (In ph (Solver2._load_phrases dir) <->
         ph <> []
         /\ exists line, In line f /\ Py.strip line <> []
                         /\ ph = Solver2.normalize_phrase (Py.strip line)))
  /\ (dir (lit "phrases.txt") = None ->
      dir (lit "wof_phrases.txt") = None ->
      dir (lit "phrases_common.txt") = None ->
      dir (lit "phrases_all.txt") = None ->
      Solver2._load_phrases dir = []).
Proof.
  assert (A : forall f ph,
             In ph (Solver2.dedup []
                      (flat_map
                         (fun line =>
                            if is_nil line then []
                            else if Nat.ltb (length (Solver2.normalize_phrase line)) 1
                                 then [] else [Solver2.normalize_phrase line])
                         (map Py.strip f)))
             <-> ph <> []
                 /\ exists line, In line f /\ Py.strip line <> []
                                 /\ ph = Solver2.normalize_phrase (Py.strip line)).
  { intros f ph. rewrite (proj2 (dedup_spec _ _)), in_flat_map. split.
    - intros [[l [Hl H]] _]. apply in_map_iff in Hl. destruct Hl as [line [<- Hl]].
      destruct (Py.strip line) as [|c t] eqn:E; [contradiction|]. cbn [is_nil] in H.
      destruct (Solver2.normalize_phrase (c :: t)) as [|x y] eqn:N; [contradiction|].
      cbn in H. destruct H as [<- | []]. split; [discriminate|].
      exists line. rewrite E. split; [assumption|]. split; [discriminate | auto].
    - intros [Ne [line [Hl [Hs ->]]]]. split; [|auto].
      exists (Py.strip line). split; [apply in_map; assumption|].
      destruct (Py.strip line) as [|c t]; [congruence|]. cbn [is_nil].
      destruct (Solver2.normalize_phrase (c :: t)) as [|x y]; [congruence|].
      left. reflexivity. }
  unfold Solver2._load_phrases. cbv zeta.
  split; [|split; [|split]].
  - destruct (match dir (lit "phrases.txt") with Some f => Some f | None => _ end);
      [apply dedup_spec | constructor].
  - intros ph. destruct (match dir (lit "phrases.txt") with Some f => Some f | None => _ end)
      as [f|]; [|contradiction].
    intros H. apply A in H. destruct H as [Ne [line [_ [_ ->]]]].
    split; [exact Ne|]. apply normalize_phrase_fixpoint.
  - intros f ph [E | [[E1 E] | [[E1 [E2 E]] | [E1 [E2 [E3 E]]]]]].
    + rewrite E. apply A.
    + rewrite E1. cbn [Solver2.first_existing]. rewrite E. apply A.
    + rewrite E1. cbn [Solver2.first_existing]. rewrite E2, E. apply A.
    + rewrite E1. cbn [Solver2.first_existing]. rewrite E2, E3, E. apply A.
  - intros E1 E2 E3 E4. rewrite E1. cbn [Solver2.first_existing].
    rewrite E2, E3, E4. reflexivity.
Qed.

Lemma load_phrases_normal_witness :
  (let dir := fun name =>
       if Py.str_eqb name (lit "phrases_all.txt")
       then Some [lit "last resort"]
       else if Py.str_eqb name (lit "phrases_common.txt")
       then Some [lit " the  quick-fox "; lit ""; lit "THE QUICK FOX"; lit "..."]
       else None in
   Solver2._load_phrases dir = [lit "THE QUICK FOX"]
   /\ In (lit "THE QUICK FOX") (Solver2._load_phrases dir)
   /\ ~ In (lit "LAST RESORT") (Solver2._load_phrases dir))
  /\ Solver2._load_phrases (fun _ => None) = [].
Proof.
  split; [|apply (proj2 (proj2 (proj2 (load_phrases_normal (fun _ => None)))));
           reflexivity].
  intros dir. split; [reflexivity|].
  pose proof (proj1 (proj2 (proj2 (load_phrases_normal dir)))
                [lit " the  quick-fox "; lit ""; lit "THE QUICK FOX"; lit "..."])
    as H.
  split.
  - apply (H (lit "THE QUICK FOX")).
    + right. right. left. repeat split; reflexivity.
    + split; [discriminate|]. exists (lit "THE QUICK FOX").
      split; [right; right; left; reflexivity|].
      split; [discriminate | reflexivity].
  - intros I. apply (H (lit "LAST RESORT")) in I.
    + destruct I as [_ [line [Hl [_ E]]]].
      destruct Hl as [<- | [<- | [<- | [<- | []]]]]; vm_compute in E; discriminate.
    + right. right. left. repeat split; reflexivity.
Defined.

(** ** [build_phrases.py] *)

Lemma clean_kept_space :
  (fun c => Py.is_upper c || Ascii.eqb c "'" || Ascii.eqb c " ") " "%char = true.
Proof. reflexivity. Qed.

Lemma clean_kept_not_lower (c : ascii) :
  Py.is_upper c || Ascii.eqb c "'" || Ascii.eqb c " " = true -> Py.is_lower c = false.
Proof. by_cases c. Qed.

(** X13, [build_phrases.clean_phrase]: a phrase that is kept has between
    3 and 40 characters, all of them upper-case letters, apostrophes or
    spaces, no white space at either end and no two spaces side by side;
    and cleaning it again gives it back. *)
Theorem clean_phrase_normal_form (p q : str) :
  BuildPhrases.clean_phrase p = Some q ->
  3 <= length q <= 40
  /\ Forall (fun c => Py.is_upper c || Ascii.eqb c "'" || Ascii.eqb c " " = true) q
  /\ Py.strip q = q
  /\ single_spaced q = true
  /\ BuildPhrases.clean_phrase q = Some q.
Proof.
  pose proof (tidy_normal _ clean_kept_space clean_kept_not_lower p) as T.
  unfold BuildPhrases.clean_phrase. cbv zeta beta in *.
  set (t := Py.strip (re_sub_runs Py.is_space (lit " ")
                        (re_sub_runs _ (lit " ") (Py.upper p)))) in *.
  clearbody t.
  destruct (Nat.leb 3 (length t) && Nat.leb (length t) 40) eqn:L; [|discriminate].
  intros H. inversion H. subst q. clear H.
  destruct T as [K [E [S F]]].
  split.
  { apply andb_true_iff in L. destruct L as [L1 L2].
    apply Nat.leb_le in L1, L2. lia. }
  split; [exact K|]. split; [exact E|]. split; [exact S|].
  rewrite F, L. reflexivity.
Qed.

Lemma clean_phrase_normal_form_witness :
  3 <= length (lit "ROCK 'N' ROLL") <= 40
  /\ Forall (fun c => Py.is_upper c || Ascii.eqb c "'" || Ascii.eqb c " " = true)
            (lit "ROCK 'N' ROLL")
  /\ Py.strip (lit "ROCK 'N' ROLL") = lit "ROCK 'N' ROLL"
  /\ single_spaced (lit "ROCK 'N' ROLL") = true
  /\ BuildPhrases.clean_phrase (lit "ROCK 'N' ROLL") = Some (lit "ROCK 'N' ROLL").
Proof.
  apply (clean_phrase_normal_form (lit " rock 'n'  roll_2 ") (lit "ROCK 'N' ROLL")).
  reflexivity.
Defined.

(** ** [wof_solver.py]: the first solver and the word path of the third *)

Lemma split_spaces (a : str) :
  Forall (fun c => Py.is_space c = true) a -> Py.split a = [].
Proof.
  induction 1 as [|c a Hc _ IH]; [reflexivity|].
  rewrite split_cons_space by assumption. exact IH.
Qed.

Lemma split_lead (a s : str) :
  Forall (fun c => Py.is_space c = true) a -> Py.split (a ++ s) = Py.split s.
Proof.
  induction 1 as [|c a Hc _ IH]; [reflexivity|].
  cbn [app]. rewrite split_cons_space by assumption. exact IH.
Qed.

Lemma split_trail (s b : str) :
  Forall (fun c => Py.is_space c = true) b -> Py.split (s ++ b) = Py.split s.
Proof.
  intros Hb. induction s as [|c r IH]; [apply split_spaces; assumption|].
  cbn [app]. destruct (Py.is_space c) eqn:Sc.
  - rewrite !split_cons_space by assumption. exact IH.
  - destruct r as [|d r'].
    + cbn [app]. destruct Hb as [|e b He Hb]; [reflexivity|].
      rewrite split_cons_last by assumption.
      rewrite (split_spaces b Hb), split_single by assumption. reflexivity.
    + cbn [app] in *. destruct (Py.is_space d) eqn:Sd.
      * rewrite !split_cons_last by assumption.
        rewrite !split_cons_space in IH by assumption. rewrite IH. reflexivity.
      * destruct (split_cons_word c d (r' ++ b) Sc Sd) as [w [ws [E1 E2]]].
        destruct (split_cons_word c d r' Sc Sd) as [v [vs [F1 F2]]].
        rewrite E2, F2. rewrite E1, F1 in IH. inversion IH. reflexivity.
Qed.

Lemma split_strip (s : str) : Py.split (Py.strip s) = Py.split s.
Proof.
  destruct (strip_spec s) as [[a [b [E [Fa Fb]]]] _].
  rewrite E at 2. rewrite split_lead, split_trail by assumption. reflexivity.
Qed.

Lemma replace_blanks_regex (w : str) :
  lit "^" ++ replace_char "_" (lit "[A-Z]") w ++ lit "$" = pattern_to_regex w None.
Proof.
  unfold pattern_to_regex, replace_char. cbn [Py.join is_nil negb].
  do 2 f_equal. apply flat_map_ext. intros ch.
  destruct (Ascii.eqb ch "_"); [reflexivity|]. destruct (Py.is_upper ch); reflexivity.
Qed.

Lemma regexes_plain (parts : list str) :
  Forall (Forall (fun c => special c = false)) parts ->
  Solver1.regexes parts
  = Ok (map (fun part => Re.Bol :: map atom_of part ++ [Re.Eol]) parts).
Proof.
  induction 1 as [|part parts Hp _ IH]; [reflexivity|].
  cbn [Solver1.regexes map]. rewrite replace_blanks_regex, compile_pattern by assumption.
  cbn [bind]. rewrite IH. reflexivity.
Qed.

Lemma blanks_ok_none (pattern s : str) : blanks_ok pattern s [] = true.
Proof.
  revert s; induction pattern as [|p pattern IH]; intros [|c s]; try reflexivity.
  cbn [blanks_ok Py.mem existsb]. rewrite andb_false_r. apply IH.
Qed.

Lemma match_words_none_forbidden (words : list str) (part : str) :
  Forall (fun c => special c = false) part ->
  (forall w s, In w words -> w <> s ++ [Re.newline]) ->
  match_words words part []
  = Ok (filter (fun w => Re.rmatch (Re.Bol :: map atom_of part ++ [Re.Eol]) w) words).
Proof.
  intros Plain Hn. rewrite match_words_plain by assumption. f_equal.
  apply filter_ext_in. intros w Hw. rewrite blanks_ok_none, andb_true_r.
  destruct (Re.rmatch _ w) eqn:M; [|apply andb_false_r].
  rewrite andb_true_r. apply Nat.eqb_eq.
  apply rmatch_pattern in M. destruct M as [s' [F [-> | ->]]].
  - symmetry. apply (Forall2_length F).
  - exfalso. eapply Hn; [exact Hw | reflexivity].
Qed.

Lemma product_no_tail {A : Type} (l : list A) :
  flat_map (fun x => map (cons x) (@nil (list A))) l = [].
Proof. induction l as [|x l IH]; [reflexivity | exact IH]. Qed.

Lemma product_with_empty {A : Type} (lists : list (list A)) :
  In [] lists -> Py.product lists = [].
Proof.
  induction lists as [|l lists IH]; [contradiction|].
  intros [-> | H]; [reflexivity|]. cbn [Py.product]. rewrite (IH H).
  apply product_no_tail.
Qed.

(** X14, [wof_solver.guess_phrase]: on a pattern without characters that
    [re] reads as operators and words that do not end with a newline, the
    first solver returns what the word path of the third, [solve_pattern],
    returns on the pattern in upper case when no letter is forbidden. *)
Theorem guess_phrase_is_word_path (pattern : str) (words : list str) :
  Forall (fun c => special c = false) pattern ->
  (forall w s, In w words -> w <> s ++ [Re.newline]) ->
  Solver1.guess_phrase pattern words = solve_pattern (Py.upper pattern) words [].
Proof.
  intros Plain Hn.
  assert (U : Forall (fun c => special c = false) (Py.upper pattern)).
  { unfold Py.upper. apply Forall_map.
    eapply Forall_impl; [|exact Plain]. apply special_upper_char. }
  pose proof (split_Forall _ _ U) as Parts.
  unfold Solver1.guess_phrase, solve_pattern. cbv zeta. rewrite split_strip.
  rewrite (regexes_plain _ Parts). cbn [bind]. rewrite map_map.
  induction Parts as [|part parts Hp Hrest IH].
  - reflexivity.
  - cbn [candidate_lists map].
    rewrite (match_words_none_forbidden words part Hp Hn). cbn [bind].
    destruct (filter (fun w => Re.rmatch (Re.Bol :: map atom_of part ++ [Re.Eol]) w)
                     words) as [|m ms']; [reflexivity|]. cbn [is_nil].
    destruct (candidate_lists parts words []) as [[lists|]| |] eqn:L;
      cbn [bind option_map] in *; try discriminate.
    + inversion IH as [E]. cbn [Py.product]. f_equal.
      assert (P : Py.product
                    (map (fun x => filter (fun w => Re.rmatch
                                             (Re.Bol :: map atom_of x ++ [Re.Eol]) w)
                                          words) parts)
                  = Py.product lists).
      { destruct (candidate_lists_exact parts words [] Hrest)
          as [[lists' [L' F]] | [L' _]]; rewrite L in L'; [|discriminate].
        inversion L'; subst lists'. f_equal. clear IH E L L'.
        induction F as [|q l qs ls [M _] _ IHF]; [reflexivity|].
        inversion Hrest; subst. cbn [map].
        rewrite (match_words_none_forbidden words q) in M by assumption.
        inversion M. f_equal. apply IHF. assumption. }
      rewrite P. reflexivity.
    + inversion IH as [E]. cbn [Py.product].
      apply map_eq_nil in E. rewrite E, product_no_tail. reflexivity.
Qed.

Lemma guess_phrase_is_word_path_witness :
  Solver1.guess_phrase (lit " c_t  _o ") [lit "CAT"; lit "GO"; lit "CUT"; lit "NO"]
  = solve_pattern (Py.upper (lit " c_t  _o "))
                  [lit "CAT"; lit "GO"; lit "CUT"; lit "NO"] [].
Proof.
  apply (guess_phrase_is_word_path (lit " c_t  _o ")
           [lit "CAT"; lit "GO"; lit "CUT"; lit "NO"]).
  - repeat constructor.
  - intros w s H E. simpl in H.
    repeat (destruct H as [<- | H];
            [apply (f_equal (@rev ascii)) in E; rewrite rev_app_distr in E;
             discriminate E|]).
    contradiction.
Defined.

(** ** [puzzle_parser.py] *)

Lemma split_on_length (sep : ascii) (s : str) :
  length (PuzzleParser.split_on sep s) = S (count_occ ascii_dec s sep).
Proof.
  induction s as [|c r IH]; [reflexivity|]. cbn [PuzzleParser.split_on count_occ].
  destruct (ascii_dec c sep) as [-> | N].
  - rewrite Ascii.eqb_refl. cbn [length]. rewrite IH. reflexivity.
  - destruct (Ascii.eqb c sep) eqn:E; [apply Ascii.eqb_eq in E; congruence|].
    destruct (PuzzleParser.split_on sep r); [discriminate | exact IH].
Qed.

Lemma record_of_none (line : str) :
  PuzzleParser.record_of line = None
  <-> count_occ ascii_dec (PuzzleParser.rstrip_char Re.newline line) ","%char <> 3.
Proof.
  unfold PuzzleParser.record_of.
  pose proof (split_on_length "," (PuzzleParser.rstrip_char Re.newline line)) as L.
  destruct (PuzzleParser.split_on "," _) as [|a [|b [|c [|d [|e t]]]]];
    cbn [length] in L; split; intros H; try reflexivity; try discriminate; lia.
Qed.

Lemma scan_step (random_int number : nat) (line : str) (rest : list str) :
  PuzzleParser.scan random_int number (line :: rest)
  = match PuzzleParser.record_of line with
    | None => PuzzleParser.ValueError
    | Some r =>
        if Nat.eqb number random_int then PuzzleParser.Returned (Some r)
        else PuzzleParser.scan random_int (S number) rest
    end.
Proof.
  unfold PuzzleParser.record_of. cbn [PuzzleParser.scan].
  destruct (PuzzleParser.split_on "," _) as [|a [|b [|c [|d [|e t]]]]];
    reflexivity.
Qed.

Lemma scan_good (lines : list str) (random_int number : nat) :
  number <= random_int ->
  (forall i line, i <= random_int - number -> nth_error lines i = Some line ->
                  PuzzleParser.record_of line <> None) ->
  PuzzleParser.scan random_int number lines
  = PuzzleParser.Returned
      (match nth_error lines (random_int - number) with
       | Some line => PuzzleParser.record_of line
       | None => None
       end).
Proof.
  revert number; induction lines as [|line rest IH]; intros number Le Good.
  - cbn [PuzzleParser.scan]. destruct (random_int - number); reflexivity.
  - rewrite scan_step.
    destruct (PuzzleParser.record_of line) as [r|] eqn:R.
    + destruct (Nat.eqb_spec number random_int) as [-> | Ne].
      * rewrite Nat.sub_diag. cbn [nth_error]. rewrite R. reflexivity.
      * rewrite IH; [| lia |].
        -- replace (random_int - number) with (S (random_int - S number)) by lia.
           reflexivity.
        -- intros i l Hi Hl. apply (Good (S i) l); [lia | exact Hl].
    + exfalso. apply (Good 0 line); [lia | reflexivity | exact R].
Qed.

Lemma scan_bad (lines : list str) (random_int number i : nat) (line : str) :
  number <= random_int ->
  i <= random_int - number ->
  nth_error lines i = Some line ->
  PuzzleParser.record_of line = None ->
  PuzzleParser.scan random_int number lines = PuzzleParser.ValueError.
Proof.
  revert number i; induction lines as [|l rest IH]; intros number i Le Hi Hl Bad.
  - destruct i; discriminate.
  - rewrite scan_step. destruct (PuzzleParser.record_of l) as [r|] eqn:R;
      [|reflexivity].
    destruct i as [|i]; [cbn in Hl; congruence|]. cbn [nth_error] in Hl.
    destruct (Nat.eqb_spec number random_int) as [-> | Ne]; [lia|].
    apply (IH (S number) i); [lia | lia | assumption | assumption].
Qed.

(** X15, [get_random_puzzle]: without the file the call fails; when one
    of the lines up to the drawn number, the final newlines aside, does
    not hold exactly three commas, it raises [ValueError], even if that
    line is not the drawn one; otherwise it returns the four fields of
    the drawn line, [&amp;] decoded in the first two, and returns [None]
    when the file has no line of that number. *)
Theorem get_random_puzzle_outcome (random_int : nat) (lines : list str) :
  PuzzleParser.get_random_puzzle random_int None = PuzzleParser.FileNotFoundError
  /\ ((exists i line,
          i <= random_int /\ nth_error lines i = Some line
          /\ count_occ ascii_dec (PuzzleParser.rstrip_char Re.newline line) ","%char
             <> 3) ->
      PuzzleParser.get_random_puzzle random_int (Some lines) = PuzzleParser.ValueError)
  /\ ((forall i line,
          i <= random_int -> nth_error lines i = Some line ->
          count_occ ascii_dec (PuzzleParser.rstrip_char Re.newline line) ","%char = 3) ->
      PuzzleParser.get_random_puzzle random_int (Some lines)
      = PuzzleParser.Returned
          (match nth_error lines random_int with
           | Some line => PuzzleParser.record_of line
           | None => None
           end)
      /\ (length lines <= random_int ->
          PuzzleParser.get_random_puzzle random_int (Some lines)
          = PuzzleParser.Returned None)).
Proof.
  split; [reflexivity|]. split.
  - intros [i [line [Hi [Hl Bad]]]]. cbn [PuzzleParser.get_random_puzzle].
    apply (scan_bad lines random_int 0 i line); [lia | lia | exact Hl|].
    apply record_of_none. exact Bad.
  - intros Good.
    assert (E : PuzzleParser.get_random_puzzle random_int (Some lines)
                = PuzzleParser.Returned
                    (match nth_error lines random_int with
                     | Some line => PuzzleParser.record_of line
                     | None => None
                     end)).
    { cbn [PuzzleParser.get_random_puzzle]. rewrite scan_good; [| lia |].
      - rewrite Nat.sub_0_r. reflexivity.
      - intros i line Hi Hl N. apply record_of_none in N.
        apply N. apply (Good i line); [lia | exact Hl]. }
    split; [exact E|]. intros Short. rewrite E.
    apply nth_error_None in Short. rewrite Short. reflexivity.
Qed.

Lemma get_random_puzzle_outcome_witness :
  PuzzleParser.get_random_puzzle 1
    (Some [lit "A,B,C,D"; lit "TOM &amp; JERRY,Show,1/2/03,R"; lit "bad"])
  = PuzzleParser.Returned
      (match nth_error [lit "A,B,C,D"; lit "TOM &amp; JERRY,Show,1/2/03,R"; lit "bad"] 1
       with
       | Some line => PuzzleParser.record_of line
       | None => None
       end).
Proof.
  apply (proj2 (proj2 (get_random_puzzle_outcome 1
                         [lit "A,B,C,D"; lit "TOM &amp; JERRY,Show,1/2/03,R"; lit "bad"]))).
  intros i line Hi Hl.
  destruct i as [|[|i]]; [| |lia]; cbn in Hl; inversion Hl; reflexivity.
Defined.

(** ** The first recommendation *)

Lemma credit_positive (phrase_set : list str) (ch : ascii) (l : list str) :
  (0 < credit phrase_set ch l)%Z <-> exists c, In c l /\ In ch c.
Proof.
  unfold credit. induction l as [|s l IH]; cbn [map fold_right].
  - split; [lia | intros [c [[] _]]].
  - pose proof (occurrences_nonneg ch s) as O.
    assert (N : (0 <= fold_right Z.add 0
                        (map (fun s => occurrences ch s
                                       * (if Py.mem s phrase_set then 1 + 10 else 1))
                             l))%Z) by apply (credit_nonneg phrase_set ch l).
    assert (C : (0 < occurrences ch s)%Z <-> In ch s).
    { unfold occurrences. rewrite (count_occ_In ascii_dec). lia. }
    split.
    + intros H. destruct (Z.eq_dec (occurrences ch s) 0) as [Z0 | NZ].
      * rewrite Z0 in H. destruct IH as [IH _].
        destruct IH as [c [Hc Hch]]; [lia|]. exists c. split; [right|]; assumption.
      * exists s. split; [left; reflexivity | apply C; lia].
    + intros [c [[<- | Hc] Hch]].
      * apply C in Hch. destruct (Py.mem s phrase_set); lia.
      * assert (P : (0 < fold_right Z.add 0
                            (map (fun s => occurrences ch s
                                           * (if Py.mem s phrase_set then 1 + 10 else 1))
                                 l))%Z) by (apply IH; eauto).
        destruct (Py.mem s phrase_set); lia.
Qed.

Lemma Forall2_In_l {A B : Type} (R : A -> B -> Prop) (l : list A) (m : list B) (a : A) :
  Forall2 R l m -> In a l -> exists b, In b m /\ R a b.
Proof.
  induction 1 as [|x y l m Hxy _ IH]; [contradiction|].
  intros [<- | H].
  - exists y. split; [left; reflexivity | assumption].
  - destruct (IH H) as [b [Hb Rb]]. exists b. split; [right|]; assumption.
Qed.

(** X16, [wof_solver]: when a valid pattern still has a placeholder and
    there is a candidate, the letter recommended first has a positive
    weight, was not attempted and occurs in one of the solutions. *)
Theorem first_recommendation_occurs (pattern : str)
  (attempted_letters : option (list str)) (words_path phrases_path : file)
  (r : solver_result) :
  valid_pattern pattern = true ->
  In "_"%char pattern ->
  wof_solver pattern attempted_letters words_path phrases_path = Ok r ->
  solutions r <> [] ->
  exists ch w rest,
    next_letter r = (ch, w) :: rest
    /\ (0 < w)%Z
    /\ Py.mem [ch] (extract_attempted_letters pattern attempted_letters) = false
    /\ exists c, In c (solutions r) /\ In ch c.
Proof.
  intros V Blank E Some.
  assert (Ex0 : exists c0, In c0 (solutions r)).
  { destruct (solutions r) as [|c0 rest0]; [congruence|].
    exists c0. left. reflexivity. }
  destruct Ex0 as [c0 In0]. clear Some.
  pose proof (solutions_fit _ _ _ _ _ _ V E In0) as F.
  destruct (Forall2_In_l _ _ _ _ F Blank) as [ch0 [Hch0 Fit]].
  unfold cell_fits in Fit. cbn [Ascii.eqb Bool.eqb] in Fit. destruct Fit as [U0 M0].
  unfold forbidden_of in M0. rewrite mem_app in M0. apply orb_false_iff in M0.
  destruct M0 as [_ M0].
  apply wof_solver_steps in E. destruct E as [pm [wb [_ [_ [_ [Rk Nx]]]]]].
  rewrite (valid_pattern_upper pattern V) in Nx.
  set (tried := extract_attempted_letters pattern attempted_letters) in *.
  assert (Perm : forall c, In c (ranked r) <-> In c (solutions r)).
  { intros c. rewrite Rk. split; apply Permutation_in;
      [|symmetry]; apply rank_solutions_perm. }
  destruct (recommend_shape (ranked r) tried (load_list phrases_path))
    as [seen [Shape [Pos Cred]]].
  rewrite <- Nx in Shape.
  assert (C0 : (0 < credit (load_list phrases_path) ch0 (ranked r))%Z).
  { apply credit_positive. exists c0. split; [apply Perm; exact In0 | exact Hch0]. }
  destruct (recommend_keys (ranked r) tried None (load_list phrases_path)) as [_ K].
  rewrite <- Nx in K.
  assert (Hk : In ch0 (map fst (next_letter r))) by (apply K; auto).
  apply in_map_iff in Hk. destruct Hk as [[k v] [Ek Hk]]. cbn [fst] in Ek. subst k.
  rewrite Shape in Hk. apply in_app_or in Hk. destruct Hk as [Hk | Hk].
  - destruct seen as [|[ch w] seen']; [contradiction|].
    pose proof (Forall_inv Pos) as Pw. pose proof (Forall_inv Cred) as Cw.
    cbn [fst snd] in Pw, Cw.
    exists ch, w, (seen' ++ map (fun ch => (ch, (-1)%Z))
                              (filter (fun ch => negb (Py.mem [ch] tried)
                                                 && (credit (load_list phrases_path)
                                                            ch (ranked r) =? 0)%Z)
                                      alphabet)).
    split; [exact Shape|]. split; [exact Pw|]. split.
    + apply (proj1 (K ch)). rewrite Shape. left. reflexivity.
    + apply credit_positive in Cw. destruct Cw as [c [Hc Hch]].
      exists c. split; [apply Perm; exact Hc | exact Hch].
  - exfalso. apply in_map_iff in Hk. destruct Hk as [x [Ex Hx]].
    inversion Ex; subst x. apply filter_In in Hx. destruct Hx as [_ Hx].
    apply andb_true_iff in Hx. destruct Hx as [_ Hx]. apply Z.eqb_eq in Hx. lia.
Qed.

Lemma first_recommendation_occurs_witness :
  exists ch w rest,
    next_letter
      {| solutions := [lit "CAT"; lit "COT"; lit "CUT"];
         ranked := [lit "CAT"; lit "COT"; lit "CUT"];
         next_letter :=
           recommend_next_letter [lit "CAT"; lit "COT"; lit "CUT"]
             (extract_attempted_letters (lit "C_T") None) None [] |}
    = (ch, w) :: rest
    /\ (0 < w)%Z
    /\ Py.mem [ch] (extract_attempted_letters (lit "C_T") None) = false
    /\ exists c,
         In c (solutions
                 {| solutions := [lit "CAT"; lit "COT"; lit "CUT"];
                    ranked := [lit "CAT"; lit "COT"; lit "CUT"];
                    next_letter :=
                      recommend_next_letter [lit "CAT"; lit "COT"; lit "CUT"]
                        (extract_attempted_letters (lit "C_T") None) None [] |})
         /\ In ch c.
Proof.
  apply (first_recommendation_occurs (lit "C_T") None
           (Some [lit "CAT"; lit "COT"; lit "CUT"; lit "DOG"]) None).
  - reflexivity.
  - right. left. reflexivity.
  - vm_compute. reflexivity.
  - discriminate.
Defined.

(** ** [wof_solver2.py]: counting the words *)

Lemma word_get_add (c : Solver2.WordCounter) (k k' : str) (v : Z) :
  Solver2.word_get (Solver2.word_add c k v) k'
  = if Py.str_eqb k' k
    then Some (match Solver2.word_get c k with Some n => n | None => 0 end + v)%Z
    else Solver2.word_get c k'.
Proof.
  induction c as [|[k0 v0] c IH]; cbn [Solver2.word_add Solver2.word_get].
  - destruct (Py.str_eqb k' k); reflexivity.
  - destruct (Py.str_eqb k k0) eqn:E; cbn [Solver2.word_get].
    + apply str_eqb_eq in E. subst k0. destruct (Py.str_eqb k' k); reflexivity.
    + rewrite IH. destruct (Py.str_eqb k' k0) eqn:E'; [|reflexivity].
      apply str_eqb_eq in E'. subst k0.
      destruct (Py.str_eqb k' k) eqn:E''; [|reflexivity].
      apply str_eqb_eq in E''. subst k'. rewrite str_eqb_refl in E. discriminate.
Qed.

Lemma fold_left_flat_map {A B C : Type} (f : C -> B -> C) (g : A -> list B)
  (l : list A) (c : C) :
  fold_left (fun c a => fold_left f (g a) c) l c = fold_left f (flat_map g l) c.
Proof.
  revert c; induction l as [|a l IH]; intros c; [reflexivity|].
  cbn [fold_left flat_map]. rewrite fold_left_app. apply IH.
Qed.

Lemma count_occ_last (l : list str) (w k : str) :
  count_occ (list_eq_dec ascii_dec) (l ++ [w]) k
  = count_occ (list_eq_dec ascii_dec) l k + (if Py.str_eqb k w then 1 else 0).
Proof.
  rewrite count_occ_app. cbn [count_occ].
  destruct (list_eq_dec ascii_dec w k) as [-> | N].
  - rewrite str_eqb_refl. reflexivity.
  - destruct (Py.str_eqb k w) eqn:E; [|reflexivity].
    apply str_eqb_eq in E. congruence.
Qed.

Lemma count_words_get (ws done : list str) (c : Solver2.WordCounter) :
  (forall k, Solver2.word_get c k
             = let n := count_occ (list_eq_dec ascii_dec) done k in
               if Nat.ltb 0 n then Some (Z.of_nat n) else None) ->
  forall k,
    Solver2.word_get (fold_left (fun c w => Solver2.word_add c w 1%Z) ws c) k
    = let n := count_occ (list_eq_dec ascii_dec) (done ++ ws) k in
      if Nat.ltb 0 n then Some (Z.of_nat n) else None.
Proof.
  revert done c; induction ws as [|w ws IH]; intros done c H k.
  - rewrite app_nil_r. apply H.
  - cbn [fold_left].
    replace (done ++ w :: ws) with ((done ++ [w]) ++ ws)
      by (rewrite <- app_assoc; reflexivity).
    apply IH. clear k. intros k. rewrite word_get_add, count_occ_last. cbv zeta.
    destruct (Py.str_eqb k w) eqn:E.
    + apply str_eqb_eq in E. subst k. rewrite (H w). cbv zeta.
      destruct (count_occ (list_eq_dec ascii_dec) done w) as [|n]; cbn [Nat.ltb Nat.leb].
      * reflexivity.
      * replace (S n + 1) with (S (S n)) by lia. cbn [Nat.ltb Nat.leb].
        f_equal. lia.
    + rewrite Nat.add_0_r. apply H.
Qed.

Lemma mark_words_get (count : str -> nat) (ws done : list str)
  (c : Solver2.WordCounter) :
  (forall k, Solver2.word_get c k
             = if Nat.ltb 0 (count k) || Py.mem k done
               then Some (Z.of_nat (count k)) else None) ->
  forall k,
    Solver2.word_get (fold_left (fun c w => Solver2.word_add c w 0%Z) ws c) k
    = if Nat.ltb 0 (count k) || Py.mem k (done ++ ws)
      then Some (Z.of_nat (count k)) else None.
Proof.
  revert done c; induction ws as [|w ws IH]; intros done c H k.
  - rewrite app_nil_r. apply H.
  - cbn [fold_left].
    replace (done ++ w :: ws) with ((done ++ [w]) ++ ws)
      by (rewrite <- app_assoc; reflexivity).
    apply IH. clear k. intros k. rewrite word_get_add, mem_app.
    cbn [Py.mem existsb]. rewrite orb_false_r.
    destruct (Py.str_eqb k w) eqn:E.
    + apply str_eqb_eq in E. subst k. rewrite (H w), !orb_true_r.
      destruct (Nat.ltb 0 (count w) || Py.mem w done) eqn:P.
      * f_equal. lia.
      * apply orb_false_iff in P. destruct P as [P _].
        apply Nat.ltb_ge in P. f_equal. lia.
    + rewrite orb_false_r. apply H.
Qed.

(** X17, [Dataset._derive_word_counts]: the count of a word is the number
    of times it occurs as a word of the phrases; the words of the word
    list that occur in no phrase are present with count 0, and no other
    string is a key. *)
Theorem word_counts_exact (phrases words : list str) (k : str) :
  let n := count_occ (list_eq_dec ascii_dec) (flat_map Py.split phrases) k in
  Solver2.word_get (Solver2._derive_word_counts phrases words) k
  = if Nat.ltb 0 n || Py.mem k words then Some (Z.of_nat n) else None.
Proof.
  intros n. unfold Solver2._derive_word_counts. cbv zeta.
  rewrite (fold_left_flat_map (fun c w => Solver2.word_add c w 1%Z) Py.split).
  apply (mark_words_get
           (fun k => count_occ (list_eq_dec ascii_dec) (flat_map Py.split phrases) k)
           words []).
  intros k'. cbn [Py.mem existsb]. rewrite orb_false_r.
  apply (count_words_get (flat_map Py.split phrases) [] []).
  intros k''. reflexivity.
Qed.
